(** * spicy: command runners and the ROM build pipeline

    A shallow embedding of [run.go] (package [spicy]) and of
    [cmd/spicy/main.go].  The Go code is a sequence of calls into the
    operating system and into collaborating packages; every such call is an
    event of the signature [Sys], a Go function is a program [Prog] over
    that signature, and [exec] runs a program against a handler that plays
    the operating system, recording the trace of calls and replies. *)

From Stdlib Require Import ZArith Lia.
From Stdlib Require Import Strings.String Strings.Byte.
From stdpp Require Import base option list gmap strings pretty.

Local Open Scope string_scope.
Local Open Scope list_scope.
Local Open Scope Z_scope.

(** ** Go values *)

(** Values of Go's [error] interface, by dynamic type. *)
Inductive error : Type :=
| PathError (op path msg : string)   (* *os.PathError *)
| ExitError (status : Z)             (* *exec.ExitError *)
| ExecError (name msg : string)      (* *exec.Error: the program did not start *)
| ForeignError (msg : string)        (* an error value of another package *)
| ErrorString (msg : string).        (* errors.New, fmt.Errorf *)

(** The method [Error() string]; what [%v] prints. *)
Definition Error (e : error) : string :=
  match e with
  | PathError op path msg => op +:+ " " +:+ path +:+ ": " +:+ msg
  | ExitError status => "exit status " +:+ pretty status
  | ExecError name msg => "exec: " +:+ name +:+ ": " +:+ msg
  | ForeignError msg => msg
  | ErrorString msg => msg
  end.

(** A Go pair [(T, error)] in which the callers read the value only when the
    error is nil. *)
Inductive result (T : Type) : Type :=
| Ok (v : T)
| Err (e : error).
Arguments Ok {T} v.
Arguments Err {T} e.

(** [*os.File]: the descriptor and the name the file was opened with. *)
Record File : Type := mkFile { fd : nat; Name : string }.

#[global] Instance File_eq_dec : EqDecision File.
Proof. solve_decision. Defined.

(** [io.Reader] values that occur in the program. *)
Inductive Reader : Type :=
| NilReader                              (* a nil interface value *)
| BufferReader (contents : list byte)    (* *bytes.Buffer *)
| FileReader (f : File)                  (* *os.File *)
| StreamReader (id : nat).               (* any other reader *)

Inductive Level : Type :=
  DebugLevel | InfoLevel | WarnLevel | ErrorLevel | PanicLevel.

(** The direct runner of [run.go]; declared here because the collaborators
    of [main.go] receive one. *)
Record ExecRunner : Type := mkExecRunner { command : string }.

(** The parsed build specification, as far as [mainE] reads it. *)
Record Segment : Type := mkSegment { Includes : list string }.
Record Wave : Type := mkWave { WaveName : string; RawSegments : list Segment }.
Record Spec : Type := mkSpec { Waves : list Wave }.

(** [n64rom.RomFile], held by reference. *)
Record RomFile : Type := mkRomFile { romId : nat }.

(** ** Calls that leave the program *)

(** One constructor per call into the operating system, the Go library or a
    collaborating package; the index is the type of the reply. *)
Inductive Sys : Type -> Type :=
(* run.go *)
| ShellquoteCommand (argv : list string) : Sys (result string)
| LogMsg (lvl : Level) (parts : list string) : Sys unit
| CmdRun (cmd : string) (args : list string) (stdin : Reader)
    : Sys (list byte * list byte * option error)
| OsOpen (path : string) : Sys (result File)
| IoutilTempFile (dir pfx : string) : Sys (result File)
| FilepathAbs (path : string) : Sys (result string)
| IoCopy (dst : File) (src : Reader) : Sys (result Z)
| FileClose (f : File) : Sys (option error)
| IoutilReadFile (path : string) : Sys (result (list byte))
(* cmd/spicy/main.go *)
| LogSetLevel (lvl : Level) : Sys unit
| PreprocessSpec (f : File) (gcc : ExecRunner) (inc def undef : list string)
    : Sys (result Reader)
| ParseSpec (r : Reader) : Sys (result Spec)
| NewBlankRomFile (fill : byte) : Sys (result RomFile)
| CreateRawObjectWrapper (f : File) (outputName : string) (ld : ExecRunner)
    : Sys (result Reader)
| CreateEntryBinary (w : Wave) (as_ : ExecRunner) : Sys (result Reader)
| LinkSpec (w : Wave) (ld : ExecRunner) (entry : Reader) : Sys (result Reader)
| BinarizeObject (linked : Reader) (objcopy : ExecRunner) : Sys (result Reader)
| IoutilReadAll (r : Reader) : Sys (result (list byte))
| RomWriteAt (rom : RomFile) (p : list byte) (off : Z) : Sys (result Z)
| OsCreate (path : string) : Sys (result File)
| FileWriteAt (f : File) (p : list byte) (off : Z) : Sys (result Z)
| RomSave (rom : RomFile) (w : File) : Sys (result Z).

(** ** Programs *)

Inductive Prog (R : Type) : Type :=
| Ret (r : R)
| Panic (msg : string)
| Vis {X : Type} (e : Sys X) (k : X -> Prog R).
Arguments Ret {R} r.
Arguments Panic {R} msg.
Arguments Vis {R X} e k.

Fixpoint bind {A B : Type} (p : Prog A) (f : A -> Prog B) : Prog B :=
  match p with
  | Ret a => f a
  | Panic msg => Panic msg
  | Vis e k => Vis e (fun x => bind (k x) f)
  end.

#[global] Instance Prog_ret : MRet Prog := @Ret.
#[global] Instance Prog_bind : MBind Prog := fun A B f p => bind p f.

(** Perform one call and return its reply. *)
Definition call {X : Type} (e : Sys X) : Prog X := Vis e Ret.

(** ** Running a program *)

(** A call together with the reply it received. *)
Inductive Event : Type :=
| Ev {X : Type} (e : Sys X) (x : X).

Definition Trace : Type := list Event.

(** The environment: how each call is answered in a state of type [S]. *)
Definition Handler (S : Type) : Type := forall X : Type, Sys X -> S -> X * S.

Inductive Outcome (R : Type) : Type :=
| Done (r : R)
| Panicked (msg : string).
Arguments Done {R} r.
Arguments Panicked {R} msg.

Fixpoint exec {S R : Type} (h : Handler S) (p : Prog R) (s : S)
  : Outcome R * S * Trace :=
  match p with
  | Ret r => (Done r, s, [])
  | Panic msg => (Panicked msg, s, [])
  | Vis e k =>
      let '(x, s1) := h _ e s in
      let '(o, s2, tr) := exec h (k x) s1 in
      (o, s2, Ev e x :: tr)
  end.

(** ** run.go *)

Module Run.

(** [logCommand]: quote the command line and log it; panic when it cannot
    be quoted. *)
Definition logCommand (command : string) (args : list string) : Prog unit :=
  r ← call (ShellquoteCommand ([command] ++ args));
  match r with
  | Err err => call (LogMsg PanicLevel ["shellquote.Command:"; Error err]) ;;
               Panic ("shellquote.Command:" +:+ Error err)
  | Ok text => call (LogMsg InfoLevel ["Running"; text])
  end.

(** The interface [Runner]. *)
Class Runner (T : Type) : Type :=
  Run : T -> Reader -> list string -> Prog (result Reader).

Definition NewRunner (cmd : string) : ExecRunner := mkExecRunner cmd.

(** [ExecRunner.Run]. *)
Definition ExecRunner_Run (e : ExecRunner) (r : Reader) (args : list string)
  : Prog (result Reader) :=
  logCommand (command e) args ;;
  '(out, errout, err) ← call (CmdRun (command e) args r);
  call (LogMsg DebugLevel ["stdout: "; string_of_list_byte out]) ;;
  match err with
  | Some err =>
      mret (Err (ErrorString
        ("Error running '" +:+ command e +:+ "': " +:+ Error err +:+ ": "
         +:+ string_of_list_byte errout)))
  | None => mret (Ok (BufferReader out))
  end.

#[global] Instance ExecRunner_Runner : Runner ExecRunner := ExecRunner_Run.

Record OutputFileRunner (T : Type) : Type := mkOutputFileRunner {
  ofr_runner : T;
  expectedOutputFile : string
}.
Arguments mkOutputFileRunner {T} _ _.
Arguments ofr_runner {T} _.
Arguments expectedOutputFile {T} _.

Definition NewOutputFileRunner {T : Type} (r : T) (outputFile : string)
  : OutputFileRunner T := mkOutputFileRunner r outputFile.

(** [OutputFileRunner.Run]. *)
Definition OutputFileRunner_Run {T : Type} `{Runner T}
    (e : OutputFileRunner T) (r : Reader) (args : list string)
  : Prog (result Reader) :=
  res ← Run (ofr_runner e) r args;
  match res with
  | Err err => mret (Err err)
  | Ok _ =>
      o ← call (OsOpen (expectedOutputFile e));
      match o with
      | Ok f => mret (Ok (FileReader f))
      | Err err => mret (Err err)
      end
  end.

#[global] Instance OutputFileRunner_Runner {T : Type} `{Runner T}
  : Runner (OutputFileRunner T) := OutputFileRunner_Run.

Record MappedFileRunner (T : Type) : Type := mkMappedFileRunner {
  mfr_runner : T;
  inputFileArgs : gmap string Reader;
  outputFileArg : string
}.
Arguments mkMappedFileRunner {T} _ _ _.
Arguments mfr_runner {T} _.
Arguments inputFileArgs {T} _.
Arguments outputFileArg {T} _.

Definition NewMappedFileRunner {T : Type} (r : T)
    (inputFileArgs : gmap string Reader) (outputFileArg : string)
  : MappedFileRunner T := mkMappedFileRunner r inputFileArgs outputFileArg.

(** [writeTempFile]. *)
Definition writeTempFile (r : Reader) (pfx : string) : Prog (result string) :=
  t ← call (IoutilTempFile EmptyString pfx);
  match t with
  | Err err => mret (Err err)
  | Ok tmpfile =>
      a ← call (FilepathAbs (Name tmpfile));
      match a with
      | Err err => mret (Err err)
      | Ok path =>
          call (LogMsg DebugLevel
                  ["Writing file for prefix "; pfx; " to "; path]) ;;
          c ← call (IoCopy tmpfile r);
          match c with
          | Err err => mret (Err err)
          | Ok _ =>
              cl ← call (FileClose tmpfile);
              match cl with
              | Some err => mret (Err err)
              | None => mret (Ok path)
              end
          end
      end
  end.

(** The loop of [MappedFileRunner.Run] over [args], from index [i] on:
    [newArgs] is the slice being filled in. *)
Fixpoint stageArgs (inputFileArgs : gmap string Reader) (i : nat)
    (args : list string) (newArgs : list string)
  : Prog (result (list string)) :=
  match args with
  | [] => mret (Ok newArgs)
  | arg :: rest =>
      match inputFileArgs !! arg with
      | Some rd =>
          t ← writeTempFile rd arg;
          match t with
          | Err err => mret (Err err)
          | Ok tempFile =>
              stageArgs inputFileArgs (S i) rest (<[i:=tempFile]> newArgs)
          end
      | None => stageArgs inputFileArgs (S i) rest (<[i:=arg]> newArgs)
      end
  end.

(** What [MappedFileRunner.Run] does once [newArgs] is complete. *)
Definition runStaged {T : Type} `{Runner T}
    (e : MappedFileRunner T) (r : Reader) (newArgs : list string)
  : Prog (result Reader) :=
  res ← Run (mfr_runner e) r newArgs;
  match res with
  | Err err => mret (Err err)
  | Ok _ =>
      b ← call (IoutilReadFile (outputFileArg e));
      match b with
      | Err err => mret (Err err)
      | Ok b => mret (Ok (BufferReader b))
      end
  end.

(** [MappedFileRunner.Run]. *)
Definition MappedFileRunner_Run {T : Type} `{Runner T}
    (e : MappedFileRunner T) (r : Reader) (args : list string)
  : Prog (result Reader) :=
  st ← stageArgs (inputFileArgs e) 0 args (replicate (length args) EmptyString);
  match st with
  | Err err => mret (Err err)
  | Ok newArgs => runStaged e r newArgs
  end.

#[global] Instance MappedFileRunner_Runner {T : Type} `{Runner T}
  : Runner (MappedFileRunner T) := MappedFileRunner_Run.

End Run.

(** ** cmd/spicy/main.go *)

Module Main.

(** The command line after [flag.Parse]: the flags the program reads, and
    the positional arguments. *)
Record Flags : Type := mkFlags {
  verbose : bool;
  romsizeMbits : Z;
  filldata : Z;
  romImageFile : string;
  defineFlags : list string;
  includeFlags : list string;
  undefineFlags : list string;
  toolchainPrefix : string;
  ldCommand : string;
  asCommand : string;
  cppCommand : string;
  objcopyCommand : string;
  Args : list string
}.

(** Go's [int] and [int64] on a 64-bit target: two's complement, wrapping. *)
Definition intBits : Z := 64.
Definition maxInt : Z := 2 ^ (intBits - 1) - 1.
Definition minInt : Z := - 2 ^ (intBits - 1).
Definition wrapInt (z : Z) : Z :=
  (z + 2 ^ (intBits - 1)) mod 2 ^ intBits - 2 ^ (intBits - 1).

(** The conversion [byte(x)] of an [int]: the low eight bits. *)
Definition byte_of_int (z : Z) : byte :=
  default x00 (Byte.of_N (Z.to_N (Z.land z 255))).

(** [int64(1000000 * *romsizeMbits / 8)]: the product is an [int], the
    division truncates towards zero. *)
Definition minSize (romsizeMbits : Z) : Z :=
  wrapInt (Z.quot (wrapInt (1000000 * romsizeMbits)) 8).

(** The flags with another value for [-f]. *)
Definition with_filldata (fl : Flags) (v : Z) : Flags :=
  {| verbose := verbose fl;
     romsizeMbits := romsizeMbits fl;
     filldata := v;
     romImageFile := romImageFile fl;
     defineFlags := defineFlags fl;
     includeFlags := includeFlags fl;
     undefineFlags := undefineFlags fl;
     toolchainPrefix := toolchainPrefix fl;
     ldCommand := ldCommand fl;
     asCommand := asCommand fl;
     cppCommand := cppCommand fl;
     objcopyCommand := objcopyCommand fl;
     Args := Args fl |}.

Definition getCommand (fl : Flags) (flag def : string) : string :=
  if decide (flag = EmptyString) then toolchainPrefix fl +:+ def else flag.

Section WithCodeStart.

(** [n64rom.CodeStart], a constant of the ROM package. *)
Variable CodeStart : Z.

(** The loop over [seg.Includes] (lines 101-107).  The results of
    [CreateRawObjectWrapper] are not bound. *)
Fixpoint mainE_includes (ld : ExecRunner) (includes : list string)
  : Prog (option error) :=
  match includes with
  | [] => mret None
  | include :: rest =>
      o ← call (OsOpen include);
      match o with
      | Err err =>
          mret (Some (ErrorString ("could not open include: " +:+ Error err)))
      | Ok f =>
          call (CreateRawObjectWrapper f (include +:+ ".o") ld) ;;
          mainE_includes ld rest
      end
  end.

(** The loop over [w.RawSegments] (lines 100-108). *)
Fixpoint mainE_segments (ld : ExecRunner) (segs : list Segment)
  : Prog (option error) :=
  match segs with
  | [] => mret None
  | seg :: rest =>
      e ← mainE_includes ld (Includes seg);
      match e with
      | Some err => mret (Some err)
      | None => mainE_segments ld rest
      end
  end.

(** One iteration of the loop over [spec.Waves] (lines 100-129); [Some] is
    a [return] out of [mainE].  After [rom.WriteAt] the variable [err]
    still holds the error of [ioutil.ReadAll], nil on this path. *)
Definition mainE_wave (rom : RomFile) (ld as_ objcopy : ExecRunner) (w : Wave)
  : Prog (option error) :=
  e ← mainE_segments ld (RawSegments w);
  match e with
  | Some err => mret (Some err)
  | None =>
  en ← call (CreateEntryBinary w as_);
  match en with
  | Err err => mret (Some (ErrorString ("spicy.CreateEntryBinary: " +:+ Error err)))
  | Ok entry =>
  l ← call (LinkSpec w ld entry);
  match l with
  | Err err => mret (Some (ErrorString ("spicy.LinkSpec: " +:+ Error err)))
  | Ok linkedObject =>
  b ← call (BinarizeObject linkedObject objcopy);
  match b with
  | Err err => mret (Some (ErrorString ("spicy.BinarizeObject: " +:+ Error err)))
  | Ok binarizedObject =>
  rd ← call (IoutilReadAll binarizedObject);
  match rd with
  | Err err =>
      mret (Some (ErrorString ("could not read binarized object: " +:+ Error err)))
  | Ok binarizedObjectBytes =>
      let err : option error := None in
      call (RomWriteAt rom binarizedObjectBytes CodeStart) ;;
      match err with
      | Some err => mret (Some (ErrorString ("could not write ROM: " +:+ Error err)))
      | None => mret None
      end
  end end end end end.

(** The loop over [spec.Waves] (lines 99-130). *)
Fixpoint mainE_waves (rom : RomFile) (ld as_ objcopy : ExecRunner)
    (waves : list Wave) : Prog (option error) :=
  match waves with
  | [] => mret None
  | w :: rest =>
      e ← mainE_wave rom ld as_ objcopy w;
      match e with
      | Some err => mret (Some err)
      | None => mainE_waves rom ld as_ objcopy rest
      end
  end.

(** Lines 131-147: create the output file, pad, save, close. *)
Definition mainE_finalize (fl : Flags) (rom : RomFile) : Prog (option error) :=
  o ← call (OsCreate (romImageFile fl));
  match o with
  | Err err => mret (Some (ErrorString ("could not create ROM: " +:+ Error err)))
  | Ok out =>
      pad ← (if decide (romsizeMbits fl > 0) then
               w ← call (FileWriteAt out [x00] (minSize (romsizeMbits fl)));
               match w with
               | Err err => mret (Some err)
               | Ok _ => mret None
               end
             else mret None);
      match pad with
      | Some err => mret (Some err)
      | None =>
          sv ← call (RomSave rom out);
          match sv with
          | Err err => mret (Some (ErrorString ("could not write ROM: " +:+ Error err)))
          | Ok _ => call (FileClose out)
          end
      end
  end.

(** Lines 82-147: everything after [defer f.Close()]. *)
Definition mainE_body (fl : Flags) (f : File) : Prog (option error) :=
  let gcc := Run.NewRunner (getCommand fl (cppCommand fl) "gcc") in
  let ld := Run.NewRunner (getCommand fl (ldCommand fl) "ld") in
  let as_ := Run.NewRunner (getCommand fl (asCommand fl) "as") in
  let objcopy := Run.NewRunner (getCommand fl (objcopyCommand fl) "objcopy") in
  p ← call (PreprocessSpec f gcc (includeFlags fl) (defineFlags fl) (undefineFlags fl));
  match p with
  | Err err => mret (Some (ErrorString ("could not preprocess spec: " +:+ Error err)))
  | Ok preprocessed =>
  sp ← call (ParseSpec preprocessed);
  match sp with
  | Err err => mret (Some (ErrorString ("could not parse spec: " +:+ Error err)))
  | Ok spec =>
  r ← call (NewBlankRomFile (byte_of_int (filldata fl)));
  match r with
  | Err err => mret (Some (ErrorString ("n64rom.NewBlankRomFile: " +:+ Error err)))
  | Ok rom =>
      e ← mainE_waves rom ld as_ objcopy (Waves spec);
      match e with
      | Some err => mret (Some err)
      | None => mainE_finalize fl rom
      end
  end end end.

(** [mainE]. *)
Definition mainE (fl : Flags) : Prog (option error) :=
  match Args fl with
  | [] => mret (Some (ErrorString "missing argument: <spec>"))
  | [arg0] =>
      call (LogSetLevel (if verbose fl then DebugLevel else WarnLevel)) ;;
      o ← call (OsOpen arg0);
      match o with
      | Err err => mret (Some (ErrorString ("could not open spec: " +:+ Error err)))
      | Ok f =>
          res ← mainE_body fl f;
          call (FileClose f) ;;   (* defer f.Close() *)
          mret res
      end
  | _ =>
      mret (Some (ErrorString
        ("invalid usage: got " +:+ pretty (Z.of_nat (length (Args fl)))
         +:+ " arguments, expected exactly 1")))
  end.

(** [main]: the value is the exit status of the process. *)
Definition main (fl : Flags) : Prog Z :=
  r ← mainE fl;
  match r with
  | Some err => call (LogMsg ErrorLevel ["Error:"; Error err]) ;; mret 1
  | None => mret 0
  end.

End WithCodeStart.

End Main.

(** ** Observations on traces *)

(** The call of an event satisfies [Q]. *)
Definition call_is (Q : forall X : Type, Sys X -> bool) (ev : Event) : bool :=
  match ev with Ev e _ => Q _ e end.

(** The program can only ever issue calls that satisfy [Q]. *)
Fixpoint issues_only {R : Type} (Q : forall X : Type, Sys X -> bool)
    (p : Prog R) : Prop :=
  match p with
  | Ret _ => True
  | Panic _ => True
  | Vis e k => Q _ e = true /\ forall x, issues_only Q (k x)
  end.

(** No reply of the environment makes the program panic. *)
Fixpoint never_panics {R : Type} (p : Prog R) : Prop :=
  match p with
  | Ret _ => True
  | Panic _ => False
  | Vis e k => forall x, never_panics (k x)
  end.

(** The calls of [writeTempFile]. *)
Definition is_staging_call (X : Type) (e : Sys X) : bool :=
  match e with
  | IoutilTempFile _ _ | FilepathAbs _ | IoCopy _ _ | FileClose _ => true
  | LogMsg DebugLevel _ => true
  | _ => false
  end.

Definition is_CmdRun (X : Type) (e : Sys X) : bool :=
  match e with CmdRun _ _ _ => true | _ => false end.

Definition is_FileWriteAt (X : Type) (e : Sys X) : bool :=
  match e with FileWriteAt _ _ _ => true | _ => false end.

Definition not_FileWriteAt (X : Type) (e : Sys X) : bool :=
  negb (is_FileWriteAt X e).

(** The calls of the loop over the include files of a build unit. *)
Definition is_include_call (X : Type) (e : Sys X) : bool :=
  match e with
  | OsOpen _ | CreateRawObjectWrapper _ _ _ => true
  | _ => false
  end.

(** The calls of one iteration of the loop over the build units. *)
Definition is_wave_call (X : Type) (e : Sys X) : bool :=
  match e with
  | OsOpen _ | CreateRawObjectWrapper _ _ _ | CreateEntryBinary _ _
  | LinkSpec _ _ _ | BinarizeObject _ _ | IoutilReadAll _ | RomWriteAt _ _ _ => true
  | _ => false
  end.

(** The call is not [n64rom.NewBlankRomFile], or it passes the fill byte
    [b]. *)
Definition blank_with (b : byte) (X : Type) (e : Sys X) : bool :=
  match e with
  | NewBlankRomFile fill => Byte.eqb fill b
  | _ => true
  end.

(** Files an event opens: a successful [os.Open], [os.Create] or
    [ioutil.TempFile]. *)
Definition opens (ev : Event) : list File :=
  match ev with
  | Ev e x =>
      match e in Sys X return X -> list File with
      | OsOpen _ | OsCreate _ | IoutilTempFile _ _ =>
          fun r => match r with Ok f => [f] | Err _ => [] end
      | _ => fun _ => []
      end x
  end.

(** Files an event closes: [Close] releases the descriptor whatever it
    returns. *)
Definition closes (ev : Event) : list File :=
  match ev with
  | Ev e _ => match e with FileClose f => [f] | _ => [] end
  end.

(** The files left open at the end of a trace, starting from [acc]. *)
Definition open_files_from (acc : list File) (tr : Trace) : list File :=
  foldl (fun acc ev => filter (fun f => f ∉ closes ev) acc ++ opens ev) acc tr.

Definition open_files (tr : Trace) : list File := open_files_from [] tr.

(** The temporary file an event creates, with the prefix it was asked for. *)
Definition tempfile_of (ev : Event) : option (string * File) :=
  match ev with
  | Ev e x =>
      match e in Sys X return X -> option (string * File) with
      | IoutilTempFile _ pfx =>
          fun r => match r with Ok f => Some (pfx, f) | Err _ => None end
      | _ => fun _ => None
      end x
  end.

(** The temporary files a trace creates for the prefix [key]. *)
Definition tempfiles_for (key : string) (tr : Trace) : list File :=
  omap (fun ev => match tempfile_of ev with
                  | Some (pfx, f) => if decide (pfx = key) then Some f else None
                  | None => None
                  end) tr.

(** How often the token [key] occurs in an argument list. *)
Definition occurrences (key : string) (args : list string) : nat :=
  length (filter (fun a => a = key) args).

(** [new] is the absolute path of a temporary file that the trace created
    with prefix [arg], filled from [rd] and closed. *)
Definition staged_in (tr : Trace) (rd : Reader) (arg new : string) : Prop :=
  exists (f : File) (n : Z),
    Ev (IoutilTempFile EmptyString arg) (Ok f) ∈ tr /\
    Ev (FilepathAbs (Name f)) (Ok new) ∈ tr /\
    Ev (IoCopy f rd) (Ok n) ∈ tr /\
    Ev (FileClose f) (@None error) ∈ tr.

(** How one token of the argument list is rewritten. *)
Definition rewritten (m : gmap string Reader) (tr : Trace) (arg new : string)
  : Prop :=
  match m !! arg with
  | Some rd => staged_in tr rd arg new
  | None => new = arg
  end.

(** The command an event runs, with what the command printed and how it
    ended. *)
Definition cmd_reply_of (ev : Event)
  : option (string * list string * Reader * (list byte * list byte * option error)) :=
  match ev with
  | Ev e x =>
      match e in Sys X
            return X -> option (string * list string * Reader *
                                (list byte * list byte * option error)) with
      | CmdRun c a r => fun x => Some (c, a, r, x)
      | _ => fun _ => None
      end x
  end.

(** The build units a trace starts on, the bytes it reads back from the
    binarizer, and its writes into the ROM image, each in order. *)
Definition unit_of (ev : Event) : option Wave :=
  match ev with
  | Ev e _ => match e with CreateEntryBinary w _ => Some w | _ => None end
  end.

Definition output_of (ev : Event) : option (list byte) :=
  match ev with
  | Ev e x =>
      match e in Sys X return X -> option (list byte) with
      | IoutilReadAll _ => fun r => match r with Ok b => Some b | Err _ => None end
      | _ => fun _ => None
      end x
  end.

Definition rom_write_of (ev : Event) : option (list byte * Z) :=
  match ev with
  | Ev e _ => match e with RomWriteAt _ p off => Some (p, off) | _ => None end
  end.

Definition units_started (tr : Trace) : list Wave := omap unit_of tr.
Definition unit_outputs (tr : Trace) : list (list byte) := omap output_of tr.
Definition rom_writes (tr : Trace) : list (list byte * Z) := omap rom_write_of tr.

(** The fill byte handed to [n64rom.NewBlankRomFile]. *)
Definition blank_fill_of (ev : Event) : option byte :=
  match ev with
  | Ev e _ => match e with NewBlankRomFile fill => Some fill | _ => None end
  end.

Definition blank_fills (tr : Trace) : list byte := omap blank_fill_of tr.

(** ** The ROM image and the output file *)

(** Modelled from the spec: [n64rom.RomFile.WriteAt] belongs to the ROM
    package; the image is a growable addressable byte buffer, initialised
    with the fill byte and changed by writing bytes at an absolute offset. *)
Definition write_at (fill : byte) (img p : list byte) (off : nat) : list byte :=
  let img' := img ++ replicate (off + length p - length img)%nat fill in
  take off img' ++ p ++ drop (off + length p)%nat img'.

#[global] Instance RomFile_eq_dec : EqDecision RomFile.
Proof. solve_decision. Defined.

(** The write an event makes into the image of [rom]: a [WriteAt] on [rom]
    that returned no error.  A [WriteAt] that failed, or one on another
    image, makes none. *)
Definition rom_write_done_of (rom : RomFile) (ev : Event)
  : option (list byte * Z) :=
  match ev with
  | Ev e x =>
      match e in Sys X return X -> option (list byte * Z) with
      | RomWriteAt rom' p off =>
          fun r => match r with
                   | Ok _ => if decide (rom' = rom) then Some (p, off) else None
                   | Err _ => None
                   end
      | _ => fun _ => None
      end x
  end.

(** The image of [rom] after a trace: the writes into [rom] that
    succeeded, in order; a write that failed leaves the image as it was. *)
Definition rom_image_after (rom : RomFile) (fill : byte) (tr : Trace)
    (img : list byte) : list byte :=
  foldl (fun img '(p, off) => write_at fill img p (Z.to_nat off)) img
        (omap (rom_write_done_of rom) tr).




(** The size of the file behind [f] after a trace: [os.Create] truncates,
    a successful [WriteAt] extends the file to the end of the write, and
    [rom.Save] writes its [n] bytes through [io.Writer], from the start of
    the file it was handed. *)
Definition file_size_step (f : File) (sz : Z) (ev : Event) : Z :=
  match ev with
  | Ev e x =>
      match e in Sys X return X -> Z with
      | OsCreate _ =>
          fun r => match r with
                   | Ok f' => if decide (f' = f) then 0 else sz
                   | Err _ => sz
                   end
      | FileWriteAt f' p off =>
          fun r => match r with
                   | Ok _ => if decide (f' = f)
                             then Z.max sz (off + Z.of_nat (length p)) else sz
                   | Err _ => sz
                   end
      | RomSave _ f' =>
          fun r => match r with
                   | Ok n => if decide (f' = f) then Z.max sz n else sz
                   | Err _ => sz
                   end
      | _ => fun _ => sz
      end x
  end.

Definition file_size_after (f : File) (tr : Trace) : Z :=
  foldl (file_size_step f) 0 tr.

(** ** Error kinds of the design *)

(** Modelled from the spec: the taxonomy of failures; the Go code declares
    no error type of its own. *)
Inductive ErrorKind : Type :=
| IOError | ExecutionError | MissingOutputError | StageError.

(** The kind of an error value: failures of file and stream operations are
    I/O errors, a failed command is an execution error, and a message
    built by [fmt.Errorf] names a stage. *)
Definition kindOf (e : error) : ErrorKind :=
  match e with
  | PathError _ _ _ => IOError
  | ForeignError _ => IOError
  | ExitError _ => ExecutionError
  | ExecError _ _ => ExecutionError
  | ErrorString _ => StageError
  end.

(** [t] occurs in [s]. *)
Definition contains (s t : string) : Prop :=
  exists pre post : string, s = pre +:+ t +:+ post.

(** ** Further observations *)

Definition is_OsOpen (X : Type) (e : Sys X) : bool :=
  match e with OsOpen _ => true | _ => false end.

Definition is_OsCreate (X : Type) (e : Sys X) : bool :=
  match e with OsCreate _ => true | _ => false end.

Definition is_IoutilReadFile (X : Type) (e : Sys X) : bool :=
  match e with IoutilReadFile _ => true | _ => false end.

(** The calls of the last part of [mainE], from [os.Create] on. *)
Definition is_finalize_call (X : Type) (e : Sys X) : bool :=
  match e with
  | OsCreate _ | FileWriteAt _ _ _ | RomSave _ _ | FileClose _ => true
  | _ => false
  end.

(** The prefixes of the temporary files a trace creates, in order. *)
Definition tempfile_prefixes (tr : Trace) : list string :=
  (omap tempfile_of tr).*1.

(** The tokens of an argument list that are keys of the mapping, in
    order. *)
Definition key_tokens (m : gmap string Reader) (args : list string)
  : list string :=
  filter (fun a => is_Some (m !! a)) args.

(** The paths a trace opens or tries to open with [os.Open], and the
    objects it asks [CreateRawObjectWrapper] for with the runner handed
    over, each in order. *)
Definition open_path_of (ev : Event) : option string :=
  match ev with
  | Ev e _ => match e with OsOpen path => Some path | _ => None end
  end.

Definition wrapped_of (ev : Event) : option (string * ExecRunner) :=
  match ev with
  | Ev e _ =>
      match e with
      | CreateRawObjectWrapper _ name ld => Some (name, ld)
      | _ => None
      end
  end.

Definition opened_paths (tr : Trace) : list string := omap open_path_of tr.
Definition wrapped_objects (tr : Trace) : list (string * ExecRunner) :=
  omap wrapped_of tr.

(** The calls of a trace to [os.Open] and to [CreateRawObjectWrapper],
    with their arguments and replies, in order. *)
Definition include_call_of (ev : Event) : option Event :=
  if call_is is_include_call ev then Some ev else None.

Definition include_calls (tr : Trace) : Trace := omap include_call_of tr.

(** The two calls the loop over the include files makes for the include
    file [o.1.1] when [os.Open] opens it as [o.1.2]: the file opened is the
    one handed to [CreateRawObjectWrapper], under the name of the include
    file followed by [.o], and [o.2] is what the wrapper replies. *)
Definition include_run (ld : ExecRunner) (o : string * File * result Reader)
  : Trace :=
  [Ev (OsOpen o.1.1) (Ok o.1.2);
   Ev (CreateRawObjectWrapper o.1.2 (o.1.1 +:+ ".o") ld) o.2].

Definition includes_run (ld : ExecRunner)
    (opened : list (string * File * result Reader)) : Trace :=
  concat (include_run ld <$> opened).

(** The include files of a spec: unit by unit, segment by segment. *)
Definition wave_includes (w : Wave) : list string :=
  concat (Includes <$> RawSegments w).

Definition all_includes (spec : Spec) : list string :=
  concat (wave_includes <$> Waves spec).

(** The spec an event parses. *)
Definition parsed_of (ev : Event) : option Spec :=
  match ev with
  | Ev e x =>
      match e in Sys X return X -> option Spec with
      | ParseSpec _ => fun r => match r with Ok spec => Some spec | Err _ => None end
      | _ => fun _ => None
      end x
  end.

(** The error an event reports in its reply, if it reports one. *)
Definition reply_error_of (ev : Event) : option error :=
  let of_result {T : Type} (r : result T) : option error :=
    match r with Err err => Some err | Ok _ => None end in
  match ev with
  | Ev e x =>
      match e in Sys X return X -> option error with
      | LogMsg _ _ | LogSetLevel _ => fun _ => None
      | CmdRun _ _ _ => fun r => r.2
      | FileClose _ => fun o => o
      | ShellquoteCommand _ | FilepathAbs _ => of_result
      | OsOpen _ | IoutilTempFile _ _ | OsCreate _ => of_result
      | IoCopy _ _ | RomWriteAt _ _ _ | FileWriteAt _ _ _ | RomSave _ _ => of_result
      | IoutilReadFile _ | IoutilReadAll _ => of_result
      | PreprocessSpec _ _ _ _ _ | CreateRawObjectWrapper _ _ _
      | CreateEntryBinary _ _ | LinkSpec _ _ _ | BinarizeObject _ _ => of_result
      | ParseSpec _ => of_result
      | NewBlankRomFile _ => of_result
      end x
  end.

(** The error [mainE] returns when the call at position [i] of its trace
    fails, for the calls whose error it tests: the message of the stage
    followed by the text of the error, or the error itself for the padding
    write.  A run opens the spec file with its second call, at position 1,
    after setting the log level; every later [os.Open] opens an include
    file.  There is none for a call that succeeded and for a call whose
    result [mainE] does not test. *)
Definition abort_error (i : nat) (ev : Event) : option error :=
  let wrap (msg : string) (T : Type) (r : result T) : option error :=
    match r with
    | Err err => Some (ErrorString (msg +:+ Error err))
    | Ok _ => None
    end in
  match ev with
  | Ev e x =>
      match e in Sys X return X -> option error with
      | OsOpen _ =>
          wrap (if decide (i = 1%nat) then "could not open spec: "
                else "could not open include: ") _
      | PreprocessSpec _ _ _ _ _ => wrap "could not preprocess spec: " _
      | ParseSpec _ => wrap "could not parse spec: " _
      | NewBlankRomFile _ => wrap "n64rom.NewBlankRomFile: " _
      | CreateEntryBinary _ _ => wrap "spicy.CreateEntryBinary: " _
      | LinkSpec _ _ _ => wrap "spicy.LinkSpec: " _
      | BinarizeObject _ _ => wrap "spicy.BinarizeObject: " _
      | IoutilReadAll _ => wrap "could not read binarized object: " _
      | OsCreate _ => wrap "could not create ROM: " _
      | RomSave _ _ => wrap "could not write ROM: " _
      | FileWriteAt _ _ _ => fun r =>
          match r with
          | Err err => Some err
          | Ok _ => None
          end
      | _ => fun _ => None
      end x
  end.

(** Every run of the program, started as the call at position [n] of a
    trace, ends with the error of every checked call that failed in it. *)
Definition fails_fast_from {S : Type} (h : Handler S) (n : nat)
    (p : Prog (option error)) : Prop :=
  forall (s s' : S) (o : Outcome (option error)) (tr : Trace),
    exec h p s = (o, s', tr) ->
    forall (i : nat) (ev : Event) (err : error),
      tr !! i = Some ev -> abort_error (n + i) ev = Some err ->
      o = Done (Some err).

#[global] Instance ExecRunner_eq_dec : EqDecision ExecRunner.
Proof. solve_decision. Defined.

(** The collaborator is handed the runner of its tool, and the
    preprocessor the [-I], [-D] and [-U] lists. *)
Definition uses_toolchain (fl : Main.Flags) (X : Type) (e : Sys X) : bool :=
  match e with
  | PreprocessSpec _ gcc inc def undef =>
      bool_decide (gcc = mkExecRunner (Main.getCommand fl (Main.cppCommand fl) "gcc"))
      && bool_decide (inc = Main.includeFlags fl)
      && bool_decide (def = Main.defineFlags fl)
      && bool_decide (undef = Main.undefineFlags fl)
  | CreateRawObjectWrapper _ _ ld | LinkSpec _ ld _ =>
      bool_decide (ld = mkExecRunner (Main.getCommand fl (Main.ldCommand fl) "ld"))
  | CreateEntryBinary _ as_ =>
      bool_decide (as_ = mkExecRunner (Main.getCommand fl (Main.asCommand fl) "as"))
  | BinarizeObject _ objcopy =>
      bool_decide (objcopy =
                   mkExecRunner (Main.getCommand fl (Main.objcopyCommand fl) "objcopy"))
  | _ => true
  end.

(** ** A scripted environment

    A handler whose replies are fixed by a [Scenario]; the state is the
    next free file descriptor.  It gives the runs on which the statements
    below are instantiated. *)

Module Sim.

Record Scenario : Type := mkScenario {
  sc_quote_fails : bool;
  sc_cmd : string -> list byte * list byte * option error;
  sc_missing : list string;
  sc_tempfile_fails : bool;
  sc_copy_fails : bool;
  sc_close_fails : bool;
  sc_spec : Spec;
  sc_output : Wave -> list byte;
  sc_wrap_fails : bool;
  sc_romwrite_fails : bool;
  sc_saved : Z
}.

Definition open_reply (sc : Scenario) (op path : string) (n : nat)
  : result File * nat :=
  if bool_decide (path ∈ sc_missing sc)
  then (Err (PathError op path "no such file or directory"), n)
  else (Ok (mkFile n path), S n).

Definition sim (sc : Scenario) : Handler nat :=
  fun X e =>
    match e in Sys X return nat -> X * nat with
    | ShellquoteCommand argv => fun n =>
        (if sc_quote_fails sc then Err (ForeignError "cannot quote argument")
         else Ok (String.concat " " argv), n)
    | LogMsg _ _ => fun n => (tt, n)
    | CmdRun cmd _ _ => fun n => (sc_cmd sc cmd, n)
    | OsOpen path => open_reply sc "open" path
    | IoutilTempFile _ pfx => fun n =>
        if sc_tempfile_fails sc
        then (Err (PathError "open" ("/tmp/" +:+ pfx) "permission denied"), n)
        else (Ok (mkFile n ("/tmp/" +:+ pfx +:+ pretty (Z.of_nat n))), S n)
    | FilepathAbs path => fun n => (Ok path, n)
    | IoCopy _ src => fun n =>
        (if sc_copy_fails sc then Err (ForeignError "unexpected EOF")
         else Ok match src with
                 | BufferReader b => Z.of_nat (length b)
                 | _ => 0
                 end, n)
    | FileClose f => fun n =>
        (if sc_close_fails sc
         then Some (PathError "close" (Name f) "input/output error")
         else None, n)
    | IoutilReadFile path => fun n =>
        (if bool_decide (path ∈ sc_missing sc)
         then Err (PathError "open" path "no such file or directory")
         else Ok [], n)
    | LogSetLevel _ => fun n => (tt, n)
    | PreprocessSpec f _ _ _ _ => fun n => (Ok (FileReader f), n)
    | ParseSpec _ => fun n => (Ok (sc_spec sc), n)
    | NewBlankRomFile _ => fun n => (Ok (mkRomFile 0), n)
    | CreateRawObjectWrapper _ _ _ => fun n =>
        (if sc_wrap_fails sc then Err (ErrorString "Error running 'ld': exit status 1: ")
         else Ok (BufferReader []), n)
    | CreateEntryBinary _ _ => fun n => (Ok (BufferReader []), n)
    | LinkSpec w _ _ => fun n => (Ok (BufferReader (sc_output sc w)), n)
    | BinarizeObject linked _ => fun n => (Ok linked, n)
    | IoutilReadAll r => fun n =>
        (Ok match r with BufferReader b => b | _ => [] end, n)
    | RomWriteAt _ p _ => fun n =>
        (if sc_romwrite_fails sc then Err (ForeignError "write beyond the image")
         else Ok (Z.of_nat (length p)), n)
    | OsCreate path => fun n => (Ok (mkFile n path), S n)
    | FileWriteAt f p off => fun n =>
        (if decide (off < 0) then Err (PathError "writeat" (Name f) "negative offset")
         else Ok (Z.of_nat (length p)), n)
    | RomSave _ _ => fun n => (Ok (sc_saved sc), n)
    end.

(** Every call succeeds; commands exit with status 0 and print nothing. *)
Definition quiet (spec : Spec) (output : Wave -> list byte) : Scenario :=
  {| sc_quote_fails := false;
     sc_cmd := fun _ => ([], [], None);
     sc_missing := [];
     sc_tempfile_fails := false;
     sc_copy_fails := false;
     sc_close_fails := false;
     sc_spec := spec;
     sc_output := output;
     sc_wrap_fails := false;
     sc_romwrite_fails := false;
     sc_saved := 4096 |}.

Definition flags (romsize fill : Z) : Main.Flags :=
  {| Main.verbose := false;
     Main.romsizeMbits := romsize;
     Main.filldata := fill;
     Main.romImageFile := "rom.n64";
     Main.defineFlags := [];
     Main.includeFlags := [];
     Main.undefineFlags := [];
     Main.toolchainPrefix := "mips64-elf-";
     Main.ldCommand := EmptyString;
     Main.asCommand := EmptyString;
     Main.cppCommand := EmptyString;
     Main.objcopyCommand := EmptyString;
     Main.Args := ["spec"] |}.

Definition wave1 : Wave := mkWave "first" [mkSegment ["a.bin"]].
Definition wave2 : Wave := mkWave "second" [].

Definition output12 (w : Wave) : list byte :=
  if decide (WaveName w = "first")
  then [x01; x02; x03]
  else [x0a; x0b].

(** A run of two build units in which every call succeeds. *)
Definition quiet_world : Scenario := quiet (mkSpec [wave1; wave2]) output12.

(** Copying into a temporary file fails. *)
Definition failing_copy : Scenario :=
  {| sc_quote_fails := false;
     sc_cmd := fun _ => ([], [], None);
     sc_missing := [];
     sc_tempfile_fails := false;
     sc_copy_fails := true;
     sc_close_fails := false;
     sc_spec := mkSpec [];
     sc_output := output12;
     sc_wrap_fails := false;
     sc_romwrite_fails := false;
     sc_saved := 0 |}.

(** The command fails with status 3 after printing on both streams. *)
Definition failing_cmd : Scenario :=
  {| sc_quote_fails := false;
     sc_cmd := fun _ => ([x6f; x6b], [x62; x6f; x6f; x6d], Some (ExitError 3));
     sc_missing := [];
     sc_tempfile_fails := false;
     sc_copy_fails := false;
     sc_close_fails := false;
     sc_spec := mkSpec [];
     sc_output := output12;
     sc_wrap_fails := false;
     sc_romwrite_fails := false;
     sc_saved := 0 |}.

(** The command succeeds but leaves no file [out.bin]. *)
Definition missing_output : Scenario :=
  {| sc_quote_fails := false;
     sc_cmd := fun _ => ([], [], None);
     sc_missing := ["out.bin"];
     sc_tempfile_fails := false;
     sc_copy_fails := false;
     sc_close_fails := false;
     sc_spec := mkSpec [];
     sc_output := output12;
     sc_wrap_fails := false;
     sc_romwrite_fails := false;
     sc_saved := 0 |}.

Definition objcopy_to_file : Run.OutputFileRunner ExecRunner :=
  Run.NewOutputFileRunner (Run.NewRunner "objcopy") "out.bin".

(** Wrapping an include file fails, and so does every write into the ROM
    image; all other calls succeed. *)
Definition failing_wrap_and_write : Scenario :=
  {| sc_quote_fails := false;
     sc_cmd := fun _ => ([], [], None);
     sc_missing := [];
     sc_tempfile_fails := false;
     sc_copy_fails := false;
     sc_close_fails := false;
     sc_spec := mkSpec [wave1; wave2];
     sc_output := output12;
     sc_wrap_fails := true;
     sc_romwrite_fails := true;
     sc_saved := 4096 |}.

(** A substitution runner around [ld] that maps the token [in]. *)
Definition map_in : gmap string Reader := {[ "in" := BufferReader [x01] ]}.
Definition ld_mapped : Run.MappedFileRunner ExecRunner :=
  Run.NewMappedFileRunner (Run.NewRunner "ld") map_in "out.bin".

(** The command line cannot be quoted. *)
Definition unquotable : Scenario :=
  {| sc_quote_fails := true;
     sc_cmd := fun _ => ([], [], None);
     sc_missing := [];
     sc_tempfile_fails := false;
     sc_copy_fails := false;
     sc_close_fails := false;
     sc_spec := mkSpec [];
     sc_output := output12;
     sc_wrap_fails := false;
     sc_romwrite_fails := false;
     sc_saved := 0 |}.

(** No temporary file can be created. *)
Definition no_tempfile : Scenario :=
  {| sc_quote_fails := false;
     sc_cmd := fun _ => ([], [], None);
     sc_missing := [];
     sc_tempfile_fails := true;
     sc_copy_fails := false;
     sc_close_fails := false;
     sc_spec := mkSpec [];
     sc_output := output12;
     sc_wrap_fails := false;
     sc_romwrite_fails := false;
     sc_saved := 0 |}.

(** The spec file does not exist. *)
Definition missing_spec : Scenario :=
  {| sc_quote_fails := false;
     sc_cmd := fun _ => ([], [], None);
     sc_missing := ["spec"];
     sc_tempfile_fails := false;
     sc_copy_fails := false;
     sc_close_fails := false;
     sc_spec := mkSpec [wave1; wave2];
     sc_output := output12;
     sc_wrap_fails := false;
     sc_romwrite_fails := false;
     sc_saved := 0 |}.

(** The include file of the first build unit does not exist. *)
Definition missing_include : Scenario :=
  {| sc_quote_fails := false;
     sc_cmd := fun _ => ([], [], None);
     sc_missing := ["a.bin"];
     sc_tempfile_fails := false;
     sc_copy_fails := false;
     sc_close_fails := false;
     sc_spec := mkSpec [wave1; wave2];
     sc_output := output12;
     sc_wrap_fails := false;
     sc_romwrite_fails := false;
     sc_saved := 0 |}.

(** The include file of the second build unit does not exist. *)
Definition missing_include_later : Scenario :=
  {| sc_quote_fails := false;
     sc_cmd := fun _ => ([], [], None);
     sc_missing := ["a.bin"];
     sc_tempfile_fails := false;
     sc_copy_fails := false;
     sc_close_fails := false;
     sc_spec := mkSpec [wave2; wave1];
     sc_output := output12;
     sc_wrap_fails := false;
     sc_romwrite_fails := false;
     sc_saved := 0 |}.

(** The flags with other positional arguments. *)
Definition flags_args (args : list string) : Main.Flags :=
  {| Main.verbose := false;
     Main.romsizeMbits := -1;
     Main.filldata := 0;
     Main.romImageFile := "rom.n64";
     Main.defineFlags := [];
     Main.includeFlags := [];
     Main.undefineFlags := [];
     Main.toolchainPrefix := "mips64-elf-";
     Main.ldCommand := EmptyString;
     Main.asCommand := EmptyString;
     Main.cppCommand := EmptyString;
     Main.objcopyCommand := EmptyString;
     Main.Args := args |}.

End Sim.

(** * Properties *)

(** ** Running programs *)

Section Exec.
Context {S : Type} (h : Handler S).

Lemma exec_ret {R : Type} (r : R) (s : S) :
  exec h (mret r) s = (Done r, s, []).
Proof. reflexivity. Qed.

Lemma exec_call {X : Type} (e : Sys X) (s : S) :
  exec h (call e) s = (Done (h X e s).1, (h X e s).2, [Ev e (h X e s).1]).
Proof. unfold call. simpl. destruct (h X e s); reflexivity. Qed.

Lemma exec_bind {A B : Type} (p : Prog A) (f : A -> Prog B) (s : S) :
  exec h (p ≫= f) s =
  match exec h p s with
  | (Done a, s1, t1) =>
      let '(o, s2, t2) := exec h (f a) s1 in (o, s2, t1 ++ t2)
  | (Panicked msg, s1, t1) => (Panicked msg, s1, t1)
  end.
Proof.
  revert s. induction p as [a | msg | X e k IH]; intros s.
  - change (exec h (f a) s = let '(o, s2, t2) := exec h (f a) s in (o, s2, [] ++ t2)).
    destruct (exec h (f a) s) as [[o s2] t2]. reflexivity.
  - reflexivity.
  - change (exec h (Vis e (fun x => k x ≫= f)) s =
            match exec h (Vis e k) s with
            | (Done a, s1, t1) =>
                let '(o, s2, t2) := exec h (f a) s1 in (o, s2, t1 ++ t2)
            | (Panicked msg, s1, t1) => (Panicked msg, s1, t1)
            end).
    simpl. destruct (h X e s) as [x s1]. rewrite IH.
    destruct (exec h (k x) s1) as [[[a | msg] s2] t1].
    + destruct (exec h (f a) s2) as [[o s3] t2]. reflexivity.
    + reflexivity.
Qed.

(** A run of [p ≫= f] that does not panic is a run of [p] followed by a run
    of [f]. *)
Lemma exec_bind_done {A B : Type} (p : Prog A) (f : A -> Prog B) (s s' : S)
    (b : B) (tr : Trace) :
  exec h (p ≫= f) s = (Done b, s', tr) ->
  exists a s1 t1 t2,
    exec h p s = (Done a, s1, t1) /\
    exec h (f a) s1 = (Done b, s', t2) /\
    tr = t1 ++ t2.
Proof.
  rewrite exec_bind.
  destruct (exec h p s) as [[[a | msg] s1] t1]; [| discriminate].
  destruct (exec h (f a) s1) as [[o s2] t2] eqn:Hf.
  intros [= -> -> <-]. eauto 10.
Qed.

(** A run of a single call followed by [f]. *)
Lemma exec_call_bind {X B : Type} (e : Sys X) (f : X -> Prog B) (s : S) :
  exec h (call e ≫= f) s =
  let '(o, s2, t2) := exec h (f (h X e s).1) (h X e s).2 in
  (o, s2, Ev e (h X e s).1 :: t2).
Proof.
  rewrite exec_bind, exec_call.
  destruct (exec h (f (h X e s).1) (h X e s).2) as [[o s2] t2]. reflexivity.
Qed.

Lemma issues_only_bind {A B : Type} (Q : forall X : Type, Sys X -> bool)
    (p : Prog A) (f : A -> Prog B) :
  issues_only Q p -> (forall a, issues_only Q (f a)) -> issues_only Q (p ≫= f).
Proof.
  intros Hp Hf. induction p as [a | msg | X e k IH].
  - apply Hf.
  - exact I.
  - destruct Hp as [He Hk]. split; [exact He |]. intros x. apply IH, Hk.
Qed.

Lemma issues_only_call {X : Type} (Q : forall X : Type, Sys X -> bool)
    (e : Sys X) :
  Q X e = true -> issues_only Q (call e).
Proof. intros He. split; [exact He | intros x; exact I]. Qed.

(** Whatever the environment answers, the trace of a program holds only
    calls the program can issue. *)
Lemma issues_only_trace {R : Type} (Q : forall X : Type, Sys X -> bool)
    (p : Prog R) (s : S) :
  issues_only Q p -> Forall (fun ev => call_is Q ev = true) (exec h p s).2.
Proof.
  revert s. induction p as [r | msg | X e k IH]; intros s Hp; simpl.
  - constructor.
  - constructor.
  - destruct Hp as [He Hk]. destruct (h X e s) as [x s1].
    specialize (IH x s1 (Hk x)).
    destruct (exec h (k x) s1) as [[o s2] tr]. simpl in *.
    constructor; [exact He | exact IH].
Qed.

Lemma never_panics_bind {A B : Type} (p : Prog A) (f : A -> Prog B) :
  never_panics p -> (forall a, never_panics (f a)) -> never_panics (p ≫= f).
Proof.
  intros Hp Hf. induction p as [a | msg | X e k IH].
  - apply Hf.
  - destruct Hp.
  - intros x. apply IH, Hp.
Qed.

(** A program that never panics returns, whatever the environment. *)
Lemma never_panics_returns {R : Type} (p : Prog R) (s : S) :
  never_panics p -> exists r : R, (exec h p s).1.1 = Done r.
Proof.
  revert s. induction p as [r | msg | X e k IH]; intros s Hp; simpl.
  - exists r. reflexivity.
  - destruct Hp.
  - destruct (h X e s) as [x s1]. destruct (IH x s1 (Hp x)) as [r Hr].
    destruct (exec h (k x) s1) as [[o s2] tr]. exists r. exact Hr.
Qed.

End Exec.

(** Unfold one call at the head of the program run in [H] and name the
    reply. *)
Tactic Notation "exec_step" hyp(H) :=
  rewrite exec_call_bind in H;
  match type of H with
  | context [ (?hh ?X ?e ?s).1 ] =>
      destruct (hh X e s) as [? ?] eqn:?; cbn [fst snd] in H
  end.

(** The same, with names for the reply and the next state. *)
Tactic Notation "exec_step" hyp(H) "as" ident(x) ident(s1) :=
  rewrite exec_call_bind in H;
  match type of H with
  | context [ (?hh ?X ?e ?s).1 ] =>
      destruct (hh X e s) as [x s1] eqn:?; cbn [fst snd] in H
  end.

Ltac exec_done H :=
  repeat rewrite exec_ret in H; cbn iota beta in H.

(** ** run.go: the temp-file stager *)

Section Stager.
Context {S : Type} (h : Handler S).
Import Run.

(** A successful [writeTempFile] made exactly these calls. *)
Lemma writeTempFile_ok (rd : Reader) (pfx path : string) (s s' : S) (tr : Trace) :
  exec h (writeTempFile rd pfx) s = (Done (Ok path), s', tr) ->
  exists (f : File) (n : Z),
    tr = [Ev (IoutilTempFile EmptyString pfx) (Ok f);
          Ev (FilepathAbs (Name f)) (Ok path);
          Ev (LogMsg DebugLevel ["Writing file for prefix "; pfx; " to "; path]) tt;
          Ev (IoCopy f rd) (Ok n);
          Ev (FileClose f) None].
Proof.
  unfold writeTempFile. intros H.
  exec_step H. destruct r as [f | e]; [| exec_done H; discriminate].
  exec_step H. destruct r as [p | e]; [| exec_done H; discriminate].
  exec_step H. destruct u.
  exec_step H. destruct r as [n | e]; [| exec_done H; discriminate].
  exec_step H. destruct o as [e |]; exec_done H; [discriminate |].
  injection H as <- <- <-. eauto.
Qed.

Lemma writeTempFile_issues (rd : Reader) (pfx : string) :
  issues_only is_staging_call (writeTempFile rd pfx).
Proof.
  unfold writeTempFile.
  repeat first
    [ apply issues_only_bind; [apply issues_only_call; reflexivity | intros ?]
    | match goal with |- issues_only _ (match ?x with _ => _ end) => destruct x end
    | exact I ].
Qed.

Lemma writeTempFile_never_panics (rd : Reader) (pfx : string) :
  never_panics (writeTempFile rd pfx).
Proof.
  unfold writeTempFile.
  repeat first
    [ exact I
    | intros ?
    | apply never_panics_bind
    | match goal with |- never_panics (match ?x with _ => _ end) => destruct x end ].
Qed.

End Stager.

(** ** run.go: the substitution runner *)

Section Substitution.
Context {S : Type} (h : Handler S).
Import Run.

Lemma staged_in_app_l (t1 t2 : Trace) (rd : Reader) (arg new : string) :
  staged_in t1 rd arg new -> staged_in (t1 ++ t2) rd arg new.
Proof.
  intros (f & n & H1 & H2 & H3 & H4). exists f, n.
  rewrite !elem_of_app. auto.
Qed.

Lemma rewritten_app_l (m : gmap string Reader) (t1 t2 : Trace) (arg new : string) :
  rewritten m t1 arg new -> rewritten m (t1 ++ t2) arg new.
Proof.
  unfold rewritten. destruct (m !! arg); [apply staged_in_app_l | auto].
Qed.

Lemma rewritten_app_r (m : gmap string Reader) (t1 t2 : Trace) (arg new : string) :
  rewritten m t2 arg new -> rewritten m (t1 ++ t2) arg new.
Proof.
  unfold rewritten. destruct (m !! arg); [| auto].
  intros (f & n & H1 & H2 & H3 & H4). exists f, n.
  rewrite !elem_of_app. auto.
Qed.

Lemma writeTempFile_staged (rd : Reader) (pfx path : string) (s s' : S)
    (tr : Trace) :
  exec h (writeTempFile rd pfx) s = (Done (Ok path), s', tr) ->
  staged_in tr rd pfx path.
Proof.
  intros H. apply writeTempFile_ok in H as (f & n & ->).
  exists f, n. set_solver.
Qed.

Lemma writeTempFile_tempfiles (rd : Reader) (pfx path key : string) (s s' : S)
    (tr : Trace) :
  exec h (writeTempFile rd pfx) s = (Done (Ok path), s', tr) ->
  length (tempfiles_for key tr) = if decide (pfx = key) then 1%nat else 0%nat.
Proof.
  intros H. apply writeTempFile_ok in H as (f & n & ->).
  unfold tempfiles_for. cbn. destruct (decide (pfx = key)); reflexivity.
Qed.

(** The loop, run from index [i] with [newArgs = acc]: it fills the
    positions [i, i + length args) and leaves the others alone. *)
Lemma stageArgs_ok (m : gmap string Reader) (args : list string) :
  forall (i : nat) (acc : list string) (s s' : S) (newArgs : list string)
         (tr : Trace),
    exec h (stageArgs m i args acc) s = (Done (Ok newArgs), s', tr) ->
    (i + length args <= length acc)%nat ->
    length newArgs = length acc /\
    (forall j, (j < i)%nat -> newArgs !! j = acc !! j) /\
    (forall j a, args !! j = Some a ->
       exists new, newArgs !! (i + j)%nat = Some new /\ rewritten m tr a new) /\
    (forall key, length (tempfiles_for key tr) =
       match m !! key with
       | Some _ => occurrences key args
       | None => 0%nat
       end).
Proof.
  induction args as [| arg rest IH]; intros i acc s s' newArgs tr H Hlen.
  - cbn in H. injection H as <- <- <-.
    repeat split; [| intros key; destruct (m !! key); reflexivity].
    intros j a Hj. discriminate.
  - cbn [stageArgs length] in *. destruct (m !! arg) as [rd |] eqn:Hm.
    + apply exec_bind_done in H as (t & s1 & t1 & t2 & Hw & H & ->).
      destruct t as [tempFile | err]; [| exec_done H; discriminate].
      apply IH in H as (Hl & Hlow & Hnew & Hcnt);
        [| rewrite length_insert; lia].
      rewrite length_insert in Hl. split; [exact Hl |]. split; [| split].
      * intros j Hj. rewrite Hlow by lia. apply list_lookup_insert_ne. lia.
      * intros [| j] a Hj.
        -- injection Hj as <-. exists tempFile. split.
           ++ rewrite Nat.add_0_r, Hlow by lia.
              apply list_lookup_insert_eq. lia.
           ++ apply rewritten_app_l. unfold rewritten. rewrite Hm.
              eapply writeTempFile_staged, Hw.
        -- destruct (Hnew j a Hj) as (new & Hn & Hr). exists new. split.
           ++ rewrite <- Hn. f_equal. lia.
           ++ apply rewritten_app_r, Hr.
      * intros key. unfold tempfiles_for in *. rewrite omap_app, length_app.
        fold (tempfiles_for key t1).
        rewrite (writeTempFile_tempfiles _ _ _ key _ _ _ Hw), Hcnt.
        unfold occurrences. rewrite filter_cons.
        destruct (decide (arg = key)) as [-> |].
        -- rewrite Hm. reflexivity.
        -- destruct (m !! key); reflexivity.
    + apply IH in H as (Hl & Hlow & Hnew & Hcnt);
        [| rewrite length_insert; lia].
      rewrite length_insert in Hl. split; [exact Hl |]. split; [| split].
      * intros j Hj. rewrite Hlow by lia. apply list_lookup_insert_ne. lia.
      * intros [| j] a Hj.
        -- injection Hj as <-. exists arg. split.
           ++ rewrite Nat.add_0_r, Hlow by lia.
              apply list_lookup_insert_eq. lia.
           ++ unfold rewritten. rewrite Hm. reflexivity.
        -- destruct (Hnew j a Hj) as (new & Hn & Hr). exists new. split.
           ++ rewrite <- Hn. f_equal. lia.
           ++ exact Hr.
      * intros key. rewrite Hcnt. unfold occurrences. rewrite filter_cons.
        destruct (decide (arg = key)) as [-> |]; [| reflexivity].
        rewrite Hm. reflexivity.
Qed.

(** The loop over [pre ++ rest] is the loop over [pre] followed, when that
    succeeds, by the loop over [rest]. *)
Lemma stageArgs_app (m : gmap string Reader) (pre rest : list string) :
  forall (i : nat) (acc : list string) (s : S),
    exec h (stageArgs m i (pre ++ rest) acc) s =
    match exec h (stageArgs m i pre acc) s with
    | (Done (Ok acc'), s1, t1) =>
        let '(o, s2, t2) :=
          exec h (stageArgs m (i + length pre) rest acc') s1 in
        (o, s2, t1 ++ t2)
    | (Done (Err err), s1, t1) => (Done (Err err), s1, t1)
    | (Panicked msg, s1, t1) => (Panicked msg, s1, t1)
    end.
Proof.
  induction pre as [| arg pre IH]; intros i acc s.
  - cbn. rewrite Nat.add_0_r.
    destruct (exec h (stageArgs m i rest acc) s) as [[o s2] t2]. reflexivity.
  - cbn [app stageArgs length]. destruct (m !! arg) as [rd |].
    + rewrite !exec_bind.
      destruct (exec h (writeTempFile rd arg) s) as [[[t | msg] s1] t1];
        [| reflexivity].
      destruct t as [tempFile | err].
      * rewrite IH.
        destruct (exec h (stageArgs m (Datatypes.S i) pre (<[i:=tempFile]> acc)) s1)
          as [[[[acc' | err] | msg] s2] t2]; try reflexivity.
        replace (Datatypes.S i + length pre)%nat
          with (i + Datatypes.S (length pre))%nat by lia.
        destruct (exec h (stageArgs m (i + Datatypes.S (length pre)) rest acc') s2)
          as [[o s3] t3].
        rewrite app_assoc. reflexivity.
      * rewrite !exec_ret. reflexivity.
    + rewrite IH.
      replace (Datatypes.S i + length pre)%nat
        with (i + Datatypes.S (length pre))%nat by lia.
      reflexivity.
Qed.

Lemma stageArgs_issues (m : gmap string Reader) (args : list string) :
  forall (i : nat) (acc : list string),
    issues_only is_staging_call (stageArgs m i args acc).
Proof.
  induction args as [| arg rest IH]; intros i acc; cbn [stageArgs].
  - exact I.
  - destruct (m !! arg) as [rd |]; [| apply IH].
    apply issues_only_bind; [apply writeTempFile_issues |].
    intros [tempFile | err]; [apply IH | exact I].
Qed.

(** The loop always returns: a new argument list or an error. *)
Lemma stageArgs_never_panics (m : gmap string Reader) (args : list string) :
  forall (i : nat) (acc : list string), never_panics (stageArgs m i args acc).
Proof.
  induction args as [| arg rest IH]; intros i acc; cbn [stageArgs].
  - exact I.
  - destruct (m !! arg) as [rd |]; [| apply IH].
    apply never_panics_bind; [apply writeTempFile_never_panics |].
    intros [tempFile | err]; [apply IH | exact I].
Qed.

(** [MappedFileRunner.Run] is its loop followed, when the loop succeeds, by
    the inner run on the new argument list. *)
Lemma MappedFileRunner_Run_unfold {T : Type} `{Runner T}
    (e : MappedFileRunner T) (r : Reader) (args : list string) (s : S) :
  exec h (Run e r args) s =
  match exec h (stageArgs (inputFileArgs e) 0 args
                  (replicate (length args) EmptyString)) s with
  | (Done (Ok newArgs), s1, t1) =>
      let '(o, s2, t2) := exec h (runStaged e r newArgs) s1 in
      (o, s2, t1 ++ t2)
  | (Done (Err err), s1, t1) => (Done (Err err), s1, t1)
  | (Panicked msg, s1, t1) => (Panicked msg, s1, t1)
  end.
Proof.
  change (Run e r args) with (MappedFileRunner_Run e r args).
  unfold MappedFileRunner_Run. rewrite exec_bind.
  destruct (exec h (stageArgs (inputFileArgs e) 0 args
                      (replicate (length args) EmptyString)) s)
    as [[[[newArgs | err] | msg] s1] t1]; try reflexivity.
  rewrite exec_ret. rewrite app_nil_r. reflexivity.
Qed.

End Substitution.

Section SubstitutionClaims.
Context {S : Type} (h : Handler S).
Import Run.

(** C1: when the loop of [MappedFileRunner.Run] completes, the rewritten
    argument list has the length and the order of the input list: token by
    token, a token that is a key of the input-stream mapping is replaced by
    the absolute path of a temporary file staged for it during this run, a
    token that is no key (duplicates included) stays unchanged at its
    position; and this list is the one the inner runner is run on. *)
Theorem MappedFileRunner_Run_rewrites_args {T : Type} `{Runner T}
    (e : MappedFileRunner T) (r : Reader) (args newArgs : list string)
    (s s' : S) (tr : Trace) :
  exec h (stageArgs (inputFileArgs e) 0 args (replicate (length args) EmptyString)) s
    = (Done (Ok newArgs), s', tr) ->
  length newArgs = length args /\
  Forall2 (rewritten (inputFileArgs e) tr) args newArgs /\
  (forall i arg, args !! i = Some arg -> inputFileArgs e !! arg = None ->
                 newArgs !! i = Some arg) /\
  (forall i arg rd, args !! i = Some arg -> inputFileArgs e !! arg = Some rd ->
                    exists path, newArgs !! i = Some path /\
                                 staged_in tr rd arg path) /\
  exec h (Run e r args) s =
    (let '(o, s2, t2) := exec h (runStaged e r newArgs) s' in (o, s2, tr ++ t2)).
Proof.
  intros Hloop.
  destruct (stageArgs_ok h _ _ _ _ _ _ _ _ Hloop) as (Hlen & _ & Hnew & _).
  { rewrite length_replicate. lia. }
  rewrite length_replicate in Hlen.
  assert (Hpt : forall i arg new, args !! i = Some arg -> newArgs !! i = Some new ->
                  rewritten (inputFileArgs e) tr arg new).
  { intros i arg new Ha Hn. destruct (Hnew i arg Ha) as (new' & Hn' & Hr).
    cbn in Hn'. congruence. }
  split; [exact Hlen |]. split; [| split; [| split]].
  - apply Forall2_same_length_lookup_2; [symmetry; exact Hlen |].
    intros i arg new Ha Hn. eapply Hpt; eassumption.
  - intros i arg Ha Hm. destruct (Hnew i arg Ha) as (new & Hn & Hr).
    unfold rewritten in Hr. rewrite Hm in Hr. subst new. exact Hn.
  - intros i arg rd Ha Hm. destruct (Hnew i arg Ha) as (new & Hn & Hr).
    unfold rewritten in Hr. rewrite Hm in Hr. exists new. split; assumption.
  - rewrite MappedFileRunner_Run_unfold, Hloop. reflexivity.
Qed.

(** C9, as amended: in a run whose loop completes, the number of temporary
    files created for a mapping key is the number of times the key occurs
    in the argument list: one per occurrence, none for a key that does not
    occur, and none for a token that is no key. *)
Theorem MappedFileRunner_Run_stages_per_occurrence {T : Type} `{Runner T}
    (e : MappedFileRunner T) (args newArgs : list string)
    (s s' : S) (tr : Trace) (key : string) :
  exec h (stageArgs (inputFileArgs e) 0 args (replicate (length args) EmptyString)) s
    = (Done (Ok newArgs), s', tr) ->
  length (tempfiles_for key tr) =
    match inputFileArgs e !! key with
    | Some _ => occurrences key args
    | None => 0%nat
    end.
Proof.
  intros Hloop.
  destruct (stageArgs_ok h _ _ _ _ _ _ _ _ Hloop) as (_ & _ & _ & Hcnt).
  { rewrite length_replicate. lia. }
  apply Hcnt.
Qed.

(** C10: when the tokens before [arg] are staged and staging the mapped
    token [arg] fails with [err], [MappedFileRunner.Run] returns [err] and
    the run ends there, whatever the inner runner is: the trace is that of
    the staging calls alone and holds no command execution. *)
Theorem MappedFileRunner_Run_staging_failure {T : Type} `{Runner T}
    (e : MappedFileRunner T) (r : Reader) (pre post : list string)
    (arg : string) (rd : Reader) (err : error) (acc : list string)
    (s s1 s2 : S) (t1 t2 : Trace) :
  exec h (stageArgs (inputFileArgs e) 0 pre
            (replicate (length (pre ++ arg :: post)) EmptyString)) s
    = (Done (Ok acc), s1, t1) ->
  inputFileArgs e !! arg = Some rd ->
  exec h (writeTempFile rd arg) s1 = (Done (Err err), s2, t2) ->
  exec h (Run e r (pre ++ arg :: post)) s = (Done (Err err), s2, t1 ++ t2) /\
  Forall (fun ev => call_is is_staging_call ev = true) (t1 ++ t2) /\
  Forall (fun ev => call_is is_CmdRun ev = false) (t1 ++ t2).
Proof.
  intros Hpre Hm Hw.
  assert (Hloop :
    exec h (stageArgs (inputFileArgs e) 0 (pre ++ arg :: post)
              (replicate (length (pre ++ arg :: post)) EmptyString)) s
    = (Done (Err err), s2, t1 ++ t2)).
  { rewrite stageArgs_app, Hpre. cbn [stageArgs]. rewrite Hm.
    rewrite exec_bind, Hw, exec_ret. rewrite app_nil_r. reflexivity. }
  assert (Hst : Forall (fun ev => call_is is_staging_call ev = true) (t1 ++ t2)).
  { pose proof (issues_only_trace h is_staging_call _ s
                  (stageArgs_issues (inputFileArgs e) (pre ++ arg :: post) 0
                     (replicate (length (pre ++ arg :: post)) EmptyString))) as Hf.
    rewrite Hloop in Hf. exact Hf. }
  split; [| split].
  - rewrite MappedFileRunner_Run_unfold, Hloop. reflexivity.
  - exact Hst.
  - eapply Forall_impl; [exact Hst |].
    intros [X c x]. destruct c; cbn; congruence.
Qed.

End SubstitutionClaims.

Import Run Sim.

(** An instance: the arguments [-o in x x] under a mapping with the one key
    [in]. *)
Lemma MappedFileRunner_Run_rewrites_args_witness :
  exists (s' : nat) (tr : Trace),
    exec (sim quiet_world)
         (stageArgs (inputFileArgs ld_mapped) 0 ["-o"; "in"; "x"; "x"]
            (replicate (length ["-o"; "in"; "x"; "x"]) EmptyString)) 0%nat
      = (Done (Ok ["-o"; "/tmp/in0"; "x"; "x"]), s', tr) /\
    length ["-o"; "/tmp/in0"; "x"; "x"] = length ["-o"; "in"; "x"; "x"] /\
    Forall2 (rewritten (inputFileArgs ld_mapped) tr)
      ["-o"; "in"; "x"; "x"] ["-o"; "/tmp/in0"; "x"; "x"] /\
    (forall i arg, ["-o"; "in"; "x"; "x"] !! i = Some arg ->
                   inputFileArgs ld_mapped !! arg = None ->
                   ["-o"; "/tmp/in0"; "x"; "x"] !! i = Some arg) /\
    (forall i arg rd, ["-o"; "in"; "x"; "x"] !! i = Some arg ->
                      inputFileArgs ld_mapped !! arg = Some rd ->
                      exists path, ["-o"; "/tmp/in0"; "x"; "x"] !! i = Some path /\
                                   staged_in tr rd arg path) /\
    exec (sim quiet_world) (Run ld_mapped NilReader ["-o"; "in"; "x"; "x"]) 0%nat =
      (let '(o, s2, t2) :=
         exec (sim quiet_world)
              (runStaged ld_mapped NilReader ["-o"; "/tmp/in0"; "x"; "x"]) s'
       in (o, s2, tr ++ t2)).
Proof.
  eexists _, _. split; [reflexivity |].
  refine (MappedFileRunner_Run_rewrites_args (sim quiet_world) ld_mapped
            NilReader ["-o"; "in"; "x"; "x"] ["-o"; "/tmp/in0"; "x"; "x"]
            0%nat _ _ _).
  reflexivity.
Defined.

(** A key that occurs twice is staged twice: one run on [in in] creates two
    temporary files for the stream mapped to [in], not one. *)
Lemma MappedFileRunner_Run_stages_duplicate_twice :
  exists (tr : Trace),
    exec (sim quiet_world) (Run ld_mapped NilReader ["in"; "in"]) 0%nat
      = (Done (Ok (BufferReader [])), 2%nat, tr) /\
    map_in !! "in" = Some (BufferReader [x01]) /\
    tempfiles_for "in" tr = [mkFile 0 "/tmp/in0"; mkFile 1 "/tmp/in1"] /\
    length (tempfiles_for "in" tr) <> 1%nat.
Proof.
  eexists. split; [vm_compute; reflexivity |].
  split; [vm_compute; reflexivity |].
  split; [vm_compute; reflexivity |].
  vm_compute. discriminate.
Qed.

(** An instance: [in] occurs twice in [in -o in]. *)
Lemma MappedFileRunner_Run_stages_per_occurrence_witness :
  exists (newArgs : list string) (s' : nat) (tr : Trace),
    exec (sim quiet_world)
         (stageArgs (inputFileArgs ld_mapped) 0 ["in"; "-o"; "in"]
            (replicate (length ["in"; "-o"; "in"]) EmptyString)) 0%nat
      = (Done (Ok newArgs), s', tr) /\
    length (tempfiles_for "in" tr) =
      match inputFileArgs ld_mapped !! "in" with
      | Some _ => occurrences "in" ["in"; "-o"; "in"]
      | None => 0%nat
      end.
Proof.
  eexists _, _, _. split; [reflexivity |].
  refine (MappedFileRunner_Run_stages_per_occurrence (sim quiet_world)
            ld_mapped ["in"; "-o"; "in"] _ 0%nat _ _ "in" _).
  reflexivity.
Defined.

(** An instance: [-o] is passed through, then copying the stream of [in]
    fails. *)
Lemma MappedFileRunner_Run_staging_failure_witness :
  exists (acc : list string) (s1 s2 : nat) (t1 t2 : Trace),
    (exec (sim failing_copy)
          (stageArgs (inputFileArgs ld_mapped) 0 ["-o"]
             (replicate (length (["-o"] ++ "in" :: ["x"])) EmptyString)) 0%nat
       = (Done (Ok acc), s1, t1) /\
     inputFileArgs ld_mapped !! "in" = Some (BufferReader [x01]) /\
     exec (sim failing_copy) (writeTempFile (BufferReader [x01]) "in") s1
       = (Done (Err (ForeignError "unexpected EOF")), s2, t2)) /\
    exec (sim failing_copy)
         (Run ld_mapped NilReader (["-o"] ++ "in" :: ["x"])) 0%nat
      = (Done (Err (ForeignError "unexpected EOF")), s2, t1 ++ t2) /\
    Forall (fun ev => call_is is_staging_call ev = true) (t1 ++ t2) /\
    Forall (fun ev => call_is is_CmdRun ev = false) (t1 ++ t2).
Proof.
  eexists _, _, _, _, _.
  split; [split; [reflexivity | split; reflexivity] |].
  refine (MappedFileRunner_Run_staging_failure (sim failing_copy)
            ld_mapped NilReader ["-o"] ["x"] "in" (BufferReader [x01])
            (ForeignError "unexpected EOF") _ 0%nat _ _ _ _ _ _ _);
    reflexivity.
Defined.

(** ** run.go: the direct runner and the output-file runner *)

Lemma string_app_assoc (a b c : string) : (a +:+ b) +:+ c = a +:+ b +:+ c.
Proof.
  induction a as [| x a IH]; [reflexivity |].
  change (String x ((a +:+ b) +:+ c) = String x (a +:+ b +:+ c)).
  f_equal. exact IH.
Qed.

Lemma string_app_nil_r (a : string) : a +:+ EmptyString = a.
Proof.
  induction a as [| x a IH]; [reflexivity |].
  change (String x (a +:+ EmptyString) = String x a).
  rewrite IH. reflexivity.
Qed.

Lemma contains_middle (pre t post : string) : contains (pre +:+ t +:+ post) t.
Proof. exists pre, post. reflexivity. Qed.

Lemma contains_suffix (pre t : string) : contains (pre +:+ t) t.
Proof. exists pre, EmptyString. rewrite string_app_nil_r. reflexivity. Qed.

Lemma contains_app_r (pre s t : string) : contains s t -> contains (pre +:+ s) t.
Proof.
  intros (a & b & ->). exists (pre +:+ a), b. rewrite string_app_assoc. reflexivity.
Qed.

Section Runners.
Context {S : Type} (h : Handler S).
Import Run.

(** C7: in a run of [ExecRunner.Run] whose command ends with an error (a
    nonzero exit status or a failure to start), the result is an error and
    no reader; its message names the program and contains the captured
    standard error verbatim, and does not depend on the captured standard
    output.  When the command ends without error the result is the
    captured standard output and no error. *)
Theorem ExecRunner_Run_reports_stderr (e : ExecRunner) (r : Reader)
    (args : list string) (s s' : S) (o : Outcome (result Reader)) (tr : Trace)
    (out errout : list byte) (oerr : option error) :
  exec h (Run e r args) s = (o, s', tr) ->
  Ev (CmdRun (command e) args r) (out, errout, oerr) ∈ tr ->
  match oerr with
  | Some err =>
      let msg := "Error running '" +:+ command e +:+ "': " +:+ Error err
                 +:+ ": " +:+ string_of_list_byte errout in
      o = Done (Err (ErrorString msg)) /\
      contains msg (command e) /\
      contains msg (string_of_list_byte errout)
  | None => o = Done (Ok (BufferReader out))
  end.
Proof.
  change (Run e r args) with (ExecRunner_Run e r args).
  unfold ExecRunner_Run, logCommand. intros H Hin.
  rewrite exec_bind in H. exec_step H.
  assert (Hne : forall X (c : Sys X) (x : X),
            Ev (CmdRun (command e) args r) (out, errout, oerr) = Ev c x ->
            cmd_reply_of (Ev c x) = Some (command e, args, r, (out, errout, oerr))).
  { intros X c x <-. reflexivity. }
  destruct r0 as [text | qerr].
  - rewrite exec_call in H. cbn iota beta in H.
    exec_step H. destruct p as [[out' errout'] oerr'].
    exec_step H. destruct u.
    assert (Hrep : o = fst (fst (exec h
               (match oerr' with
                | Some err =>
                    mret (Err (ErrorString
                      ("Error running '" +:+ command e +:+ "': " +:+ Error err
                       +:+ ": " +:+ string_of_list_byte errout')))
                | None => mret (Ok (BufferReader out'))
                end) s2)) /\
             (out', errout', oerr') = (out, errout, oerr)).
    { destruct oerr'; exec_done H; injection H as <- <- <-;
        (split; [reflexivity |]);
        (apply elem_of_cons in Hin as [Hin | Hin];
         [apply Hne in Hin; discriminate |]);
        (apply elem_of_cons in Hin as [Hin | Hin];
         [apply Hne in Hin; discriminate |]);
        (apply elem_of_cons in Hin as [Hin | Hin];
         [apply Hne in Hin; cbn in Hin; congruence |]);
        (apply elem_of_cons in Hin as [Hin | Hin];
         [apply Hne in Hin; discriminate | inversion Hin]). }
    destruct Hrep as [-> Hrep]. injection Hrep as -> -> ->.
    destruct oerr as [err |]; rewrite exec_ret; cbn [fst].
    + split; [reflexivity |]. split.
      * apply contains_middle.
      * do 4 apply contains_app_r. apply contains_suffix.
    + reflexivity.
  - rewrite exec_bind, exec_call in H. cbn iota beta in H.
    injection H as <- <- <-.
    apply elem_of_cons in Hin as [Hin | Hin]; [apply Hne in Hin; discriminate |].
    apply elem_of_cons in Hin as [Hin | Hin]; [apply Hne in Hin; discriminate |].
    inversion Hin.
Qed.

(** C3, as amended: when the inner run succeeds and the output file cannot
    be opened, [OutputFileRunner.Run] fails with the very error that
    [os.Open] returned, neither wrapped nor replaced. *)
Theorem OutputFileRunner_Run_returns_open_error {T : Type} `{Runner T}
    (e : OutputFileRunner T) (r : Reader) (args : list string)
    (v : Reader) (err : error) (s s1 s2 : S) (t1 : Trace) :
  exec h (Run (ofr_runner e) r args) s = (Done (Ok v), s1, t1) ->
  h _ (OsOpen (expectedOutputFile e)) s1 = (Err err, s2) ->
  exec h (Run e r args) s =
    (Done (Err err), s2, t1 ++ [Ev (OsOpen (expectedOutputFile e)) (Err err)]) /\
  kindOf err <> MissingOutputError.
Proof.
  intros Hinner Hopen.
  change (Run e r args) with (OutputFileRunner_Run e r args).
  unfold OutputFileRunner_Run.
  rewrite exec_bind, Hinner, exec_call_bind, Hopen. cbn [fst snd].
  rewrite exec_ret. split; [reflexivity |].
  destruct err; discriminate.
Qed.

(** The outcomes of [writeTempFile], by the first call that fails, with
    the files each leaves open. *)
Lemma writeTempFile_cases (rd : Reader) (pfx : string) (s s' : S)
    (o : Outcome (result string)) (tr : Trace) :
  exec h (writeTempFile rd pfx) s = (o, s', tr) ->
  (exists err, o = Done (Err err) /\
     tr = [Ev (IoutilTempFile EmptyString pfx) (Err err)] /\ open_files tr = []) \/
  (exists f err, o = Done (Err err) /\
     tr = [Ev (IoutilTempFile EmptyString pfx) (Ok f); Ev (FilepathAbs (Name f)) (Err err)] /\
     open_files tr = [f]) \/
  (exists f path err, o = Done (Err err) /\
     tr = [Ev (IoutilTempFile EmptyString pfx) (Ok f); Ev (FilepathAbs (Name f)) (Ok path);
           Ev (LogMsg DebugLevel ["Writing file for prefix "; pfx; " to "; path]) tt;
           Ev (IoCopy f rd) (Err err)] /\
     open_files tr = [f]) \/
  (exists f path n err, o = Done (Err err) /\
     tr = [Ev (IoutilTempFile EmptyString pfx) (Ok f); Ev (FilepathAbs (Name f)) (Ok path);
           Ev (LogMsg DebugLevel ["Writing file for prefix "; pfx; " to "; path]) tt;
           Ev (IoCopy f rd) (Ok n); Ev (FileClose f) (Some err)] /\
     open_files tr = []) \/
  (exists f path n, o = Done (Ok path) /\
     tr = [Ev (IoutilTempFile EmptyString pfx) (Ok f); Ev (FilepathAbs (Name f)) (Ok path);
           Ev (LogMsg DebugLevel ["Writing file for prefix "; pfx; " to "; path]) tt;
           Ev (IoCopy f rd) (Ok n); Ev (FileClose f) None] /\
     open_files tr = []).
Proof.
  assert (Hclosed : forall f : File, filter (fun x => x ∉ [f]) [f] = []).
  { intros f. rewrite filter_cons. destruct (decide (f ∉ [f])) as [Hn |].
    - exfalso. apply Hn. set_solver.
    - reflexivity. }
  unfold writeTempFile. intros H.
  exec_step H. destruct r as [f | e].
  2: { exec_done H. injection H as <- <- <-. left. eauto. }
  exec_step H. destruct r as [p | e].
  2: { exec_done H. injection H as <- <- <-. right; left. eauto 10. }
  exec_step H. destruct u.
  exec_step H. destruct r as [n | e].
  2: { exec_done H. injection H as <- <- <-. right; right; left. eauto 10. }
  exec_step H. destruct o0 as [e |]; exec_done H; injection H as <- <- <-.
  - right; right; right; left. exists f, p, n, e.
    split; [reflexivity |]. split; [reflexivity |].
    unfold open_files, open_files_from. cbn. rewrite Hclosed. reflexivity.
  - right; right; right; right. exists f, p, n.
    split; [reflexivity |]. split; [reflexivity |].
    unfold open_files, open_files_from. cbn. rewrite Hclosed. reflexivity.
Qed.

End Runners.

Import Run Sim.

(** An instance: [ld] exits with status 3 after printing [boom] on its
    standard error. *)
Lemma ExecRunner_Run_reports_stderr_witness :
  exists (s' : nat) (tr : Trace),
    (exec (sim failing_cmd) (Run (NewRunner "ld") NilReader ["-o"; "x"]) 0%nat
       = (Done (Err (ErrorString "Error running 'ld': exit status 3: boom")), s', tr) /\
     Ev (CmdRun "ld" ["-o"; "x"] NilReader) ([x6f; x6b], [x62; x6f; x6f; x6d], Some (ExitError 3))
       ∈ tr) /\
    @Done (result Reader) (Err (ErrorString "Error running 'ld': exit status 3: boom"))
      = Done (Err (ErrorString "Error running 'ld': exit status 3: boom")) /\
    contains "Error running 'ld': exit status 3: boom" "ld" /\
    contains "Error running 'ld': exit status 3: boom" "boom".
Proof.
  eexists _, _.
  assert (Hrun : exec (sim failing_cmd) (Run (NewRunner "ld") NilReader ["-o"; "x"]) 0%nat
            = (Done (Err (ErrorString "Error running 'ld': exit status 3: boom")), _, _))
    by reflexivity.
  assert (Hin : Ev (CmdRun "ld" ["-o"; "x"] NilReader)
                   ([x6f; x6b], [x62; x6f; x6f; x6d], Some (ExitError 3))
                ∈ [Ev (ShellquoteCommand ["ld"; "-o"; "x"]) (Ok "ld -o x");
                   Ev (LogMsg InfoLevel ["Running"; "ld -o x"]) tt;
                   Ev (CmdRun "ld" ["-o"; "x"] NilReader)
                      ([x6f; x6b], [x62; x6f; x6f; x6d], Some (ExitError 3));
                   Ev (LogMsg DebugLevel ["stdout: "; "ok"]) tt])
    by (rewrite !elem_of_cons; auto).
  split; [split; [exact Hrun | exact Hin] |].
  exact (ExecRunner_Run_reports_stderr (sim failing_cmd) (NewRunner "ld") NilReader
           ["-o"; "x"] 0%nat _ _ _ _ _ _ Hrun Hin).
Defined.

(** With the output file absent after a successful command, the error of
    [OutputFileRunner.Run] is the [*os.PathError] of [os.Open], an I/O error
    like any other and no missing-output error. *)
Lemma OutputFileRunner_Run_missing_output_is_io_error :
  exists (s' : nat) (tr : Trace),
    exec (sim missing_output) (Run (NewRunner "objcopy") NilReader ["a.out"]) 0%nat
      = (Done (Ok (BufferReader [])), 0%nat,
         [Ev (ShellquoteCommand ["objcopy"; "a.out"]) (Ok "objcopy a.out");
          Ev (LogMsg InfoLevel ["Running"; "objcopy a.out"]) tt;
          Ev (CmdRun "objcopy" ["a.out"] NilReader) ([], [], None);
          Ev (LogMsg DebugLevel ["stdout: "; EmptyString]) tt]) /\
    exec (sim missing_output) (Run objcopy_to_file NilReader ["a.out"]) 0%nat
      = (Done (Err (PathError "open" "out.bin" "no such file or directory")), s', tr) /\
    kindOf (PathError "open" "out.bin" "no such file or directory") = IOError /\
    kindOf (PathError "open" "out.bin" "no such file or directory")
      <> MissingOutputError.
Proof.
  eexists _, _.
  split; [vm_compute; reflexivity |].
  split; [vm_compute; reflexivity |].
  split; [reflexivity | discriminate].
Qed.

(** An instance: [objcopy] succeeds and [out.bin] does not exist. *)
Lemma OutputFileRunner_Run_returns_open_error_witness :
  exists (s1 s2 : nat) (t1 : Trace),
    (exec (sim missing_output) (Run (ofr_runner objcopy_to_file) NilReader ["a.out"]) 0%nat
       = (Done (Ok (BufferReader [])), s1, t1) /\
     sim missing_output _ (OsOpen (expectedOutputFile objcopy_to_file)) s1
       = (Err (PathError "open" "out.bin" "no such file or directory"), s2)) /\
    exec (sim missing_output) (Run objcopy_to_file NilReader ["a.out"]) 0%nat
      = (Done (Err (PathError "open" "out.bin" "no such file or directory")), s2,
         t1 ++ [Ev (OsOpen (expectedOutputFile objcopy_to_file))
                   (Err (PathError "open" "out.bin" "no such file or directory"))]) /\
    kindOf (PathError "open" "out.bin" "no such file or directory")
      <> MissingOutputError.
Proof.
  eexists _, _, _.
  split; [split; reflexivity |].
  refine (OutputFileRunner_Run_returns_open_error (sim missing_output)
            objcopy_to_file NilReader ["a.out"] (BufferReader [])
            (PathError "open" "out.bin" "no such file or directory")
            0%nat _ _ _ _ _); reflexivity.
Defined.

(** C4: [writeTempFile] on a stream whose copy fails.  The stager returns
    the error of [io.Copy], and the temporary file it created is still
    open: the failure paths return without [tmpfile.Close()]. *)
Theorem writeTempFile_copy_failure_leaves_file_open :
  exists (tr : Trace),
    exec (sim failing_copy) (writeTempFile (BufferReader [x01]) "in") 0%nat
      = (Done (Err (ForeignError "unexpected EOF")), 1%nat, tr) /\
    tr = [Ev (IoutilTempFile EmptyString "in") (Ok (mkFile 0 "/tmp/in0"));
          Ev (FilepathAbs "/tmp/in0") (Ok "/tmp/in0");
          Ev (LogMsg DebugLevel ["Writing file for prefix "; "in"; " to "; "/tmp/in0"]) tt;
          Ev (IoCopy (mkFile 0 "/tmp/in0") (BufferReader [x01]))
             (Err (ForeignError "unexpected EOF"))] /\
    open_files tr = [mkFile 0 "/tmp/in0"].
Proof.
  eexists. split; [vm_compute; reflexivity |].
  split; [reflexivity | vm_compute; reflexivity].
Qed.

(** ** cmd/spicy/main.go *)

Lemma omap_none_of_calls {A : Type} (Q : forall X : Type, Sys X -> bool)
    (f : Event -> option A) (tr : Trace) :
  (forall ev, call_is Q ev = true -> f ev = None) ->
  Forall (fun ev => call_is Q ev = true) tr ->
  omap f tr = [].
Proof.
  intros Hf Htr. induction Htr as [| ev tr Hev _ IH]; [reflexivity |].
  cbn. rewrite (Hf ev Hev). exact IH.
Qed.


Section Orchestrator.
Context {S : Type} (h : Handler S).
Variable CodeStart : Z.
Import Main.

Lemma mainE_includes_issues (ld : ExecRunner) (includes : list string) :
  issues_only is_include_call (mainE_includes ld includes).
Proof.
  induction includes as [| include rest IH]; cbn [mainE_includes]; [exact I |].
  apply issues_only_bind; [apply issues_only_call; reflexivity |].
  intros [f | err]; [| exact I].
  apply issues_only_bind; [apply issues_only_call; reflexivity |].
  intros _. exact IH.
Qed.

Lemma mainE_segments_issues (ld : ExecRunner) (segs : list Segment) :
  issues_only is_include_call (mainE_segments ld segs).
Proof.
  induction segs as [| seg rest IH]; cbn [mainE_segments]; [exact I |].
  apply issues_only_bind; [apply mainE_includes_issues |].
  intros [err |]; [exact I | exact IH].
Qed.

(** The include files of a unit contribute no unit, output or ROM write. *)
Lemma mainE_segments_trace (ld : ExecRunner) (segs : list Segment) (s : S) :
  let tr := (exec h (mainE_segments ld segs) s).2 in
  units_started tr = [] /\ unit_outputs tr = [] /\ rom_writes tr = [].
Proof.
  pose proof (issues_only_trace h is_include_call _ s
                (mainE_segments_issues ld segs)) as Hf.
  cbn zeta. repeat split;
    (eapply omap_none_of_calls; [| exact Hf]);
    intros [X c x]; destruct c; cbn; congruence.
Qed.

(** A unit that is processed without error: its output is read back and
    written at [CodeStart]. *)
Lemma mainE_wave_done (rom : RomFile) (ld as_ objcopy : ExecRunner) (w : Wave)
    (s s' : S) (tr : Trace) :
  exec h (mainE_wave CodeStart rom ld as_ objcopy w) s = (Done None, s', tr) ->
  exists b : list byte,
    units_started tr = [w] /\ unit_outputs tr = [b] /\
    rom_writes tr = [(b, CodeStart)].
Proof.
  unfold mainE_wave. intros H.
  apply exec_bind_done in H as (e & s1 & t1 & t2 & Hseg & H & ->).
  destruct (mainE_segments_trace ld (RawSegments w) s) as (Hu & Ho & Hw).
  rewrite Hseg in Hu, Ho, Hw. cbn [snd] in Hu, Ho, Hw.
  destruct e as [err |]; [exec_done H; discriminate |].
  exec_step H as en s2. destruct en as [entry | err]; [| exec_done H; discriminate].
  exec_step H as l s3. destruct l as [linked | err]; [| exec_done H; discriminate].
  exec_step H as b s4. destruct b as [bin | err]; [| exec_done H; discriminate].
  exec_step H as rd s5. destruct rd as [bytes | err]; [| exec_done H; discriminate].
  cbv zeta in H. exec_step H as wr s6. exec_done H. injection H as <- <-.
  exists bytes. unfold units_started, unit_outputs, rom_writes in *.
  rewrite !omap_app, Hu, Ho, Hw. repeat split.
Qed.

Lemma mainE_waves_done (rom : RomFile) (ld as_ objcopy : ExecRunner)
    (waves : list Wave) :
  forall (s s' : S) (tr : Trace),
    exec h (mainE_waves CodeStart rom ld as_ objcopy waves) s = (Done None, s', tr) ->
    units_started tr = waves /\
    length (unit_outputs tr) = length waves /\
    rom_writes tr = (fun b => (b, CodeStart)) <$> unit_outputs tr.
Proof.
  induction waves as [| w rest IH]; intros s s' tr H; cbn [mainE_waves] in H.
  - exec_done H. injection H as <- <-. repeat split.
  - apply exec_bind_done in H as (e & s1 & t1 & t2 & Hw & H & ->).
    destruct e as [err |]; [exec_done H; discriminate |].
    apply mainE_wave_done in Hw as (b & Hu & Ho & Hr).
    apply IH in H as (Hu' & Ho' & Hr').
    unfold units_started, unit_outputs, rom_writes in *.
    rewrite !omap_app, Hu, Ho, Hr, Hu', Hr'. cbn.
    rewrite Ho'. repeat split.
Qed.

(** A finalization without error. *)
Lemma mainE_finalize_done (fl : Flags) (rom : RomFile) (s s' : S) (tr : Trace) :
  exec h (mainE_finalize fl rom) s = (Done None, s', tr) ->
  exists (out : File) (n : Z),
    (romsizeMbits fl > 0 /\ exists k : Z,
       tr = [Ev (OsCreate (romImageFile fl)) (Ok out);
             Ev (FileWriteAt out [x00] (minSize (romsizeMbits fl))) (Ok k);
             Ev (RomSave rom out) (Ok n);
             Ev (FileClose out) None]) \/
    (romsizeMbits fl <= 0 /\
       tr = [Ev (OsCreate (romImageFile fl)) (Ok out);
             Ev (RomSave rom out) (Ok n);
             Ev (FileClose out) None]).
Proof.
  unfold mainE_finalize. intros H.
  exec_step H as o s1. destruct o as [out | err]; [| exec_done H; discriminate].
  rewrite exec_bind in H.
  destruct (decide (romsizeMbits fl > 0)) as [Hpos | Hneg].
  - rewrite exec_call_bind in H.
    destruct (h _ (FileWriteAt out [x00] (minSize (romsizeMbits fl))) s1)
      as [w s2] eqn:Hw. cbn [fst snd] in H.
    destruct w as [k | err]; exec_done H; [| discriminate].
    exec_step H as sv s3. destruct sv as [n | err]; [| exec_done H; discriminate].
    rewrite exec_call in H.
    destruct (h _ (FileClose out) s3) as [cl s4] eqn:Hcl. cbn [fst snd] in H.
    injection H as -> <- <-.
    exists out, n. left. split; [exact Hpos |]. exists k. reflexivity.
  - exec_done H.
    exec_step H as sv s3. destruct sv as [n | err]; [| exec_done H; discriminate].
    rewrite exec_call in H.
    destruct (h _ (FileClose out) s1) as [cl s4] eqn:Hcl. cbn [fst snd] in H.
    injection H as -> <- <-.
    exists out, n. right. split; [lia | reflexivity].
Qed.

(** A run of [mainE] without error went through every stage. *)
Lemma mainE_done (fl : Flags) (s s' : S) (tr : Trace) :
  exec h (mainE CodeStart fl) s = (Done None, s', tr) ->
  exists (arg0 : string) (f : File) (pre : Reader) (spec : Spec) (rom : RomFile)
         (cl : option error) (s1 s2 s3 : S) (t_waves t_fin : Trace),
    Args fl = [arg0] /\
    tr = [Ev (LogSetLevel (if verbose fl then DebugLevel else WarnLevel)) tt;
          Ev (OsOpen arg0) (Ok f);
          Ev (PreprocessSpec f (Run.NewRunner (getCommand fl (cppCommand fl) "gcc"))
                (includeFlags fl) (defineFlags fl) (undefineFlags fl)) (Ok pre);
          Ev (ParseSpec pre) (Ok spec);
          Ev (NewBlankRomFile (byte_of_int (filldata fl))) (Ok rom)]
         ++ t_waves ++ t_fin ++ [Ev (FileClose f) cl] /\
    exec h (mainE_waves CodeStart rom
              (Run.NewRunner (getCommand fl (ldCommand fl) "ld"))
              (Run.NewRunner (getCommand fl (asCommand fl) "as"))
              (Run.NewRunner (getCommand fl (objcopyCommand fl) "objcopy"))
              (Waves spec)) s1 = (Done None, s2, t_waves) /\
    exec h (mainE_finalize fl rom) s2 = (Done None, s3, t_fin).
Proof.
  unfold mainE. intros H.
  destruct (Args fl) as [| arg0 [| arg1 more]];
    [exec_done H; discriminate | | exec_done H; discriminate].
  exec_step H as u s0. destruct u.
  exec_step H as o s1. destruct o as [f | err]; [| exec_done H; discriminate].
  rewrite exec_bind in H.
  destruct (exec h (mainE_body CodeStart fl f) s1) as [[[res | msg] s2] t1] eqn:Hbody;
    [| cbn iota beta in H; discriminate].
  exec_step H as cl s3. exec_done H. injection H as -> <- <-.
  unfold mainE_body in Hbody. cbv zeta in Hbody.
  exec_step Hbody as p s4. destruct p as [pre | err]; [| exec_done Hbody; discriminate].
  exec_step Hbody as sp s5. destruct sp as [spec | err]; [| exec_done Hbody; discriminate].
  exec_step Hbody as r s6. destruct r as [rom | err]; [| exec_done Hbody; discriminate].
  rewrite exec_bind in Hbody.
  destruct (exec h (mainE_waves CodeStart rom
              (Run.NewRunner (getCommand fl (ldCommand fl) "ld"))
              (Run.NewRunner (getCommand fl (asCommand fl) "as"))
              (Run.NewRunner (getCommand fl (objcopyCommand fl) "objcopy"))
              (Waves spec)) s6) as [[[e | msg] s8] t8] eqn:Hw;
    [| cbn iota beta in Hbody; discriminate].
  destruct e as [err |]; [exec_done Hbody; discriminate |].
  destruct (exec h (mainE_finalize fl rom) s8) as [[o9 s9] t9] eqn:Hfin.
  cbn iota beta in Hbody. injection Hbody as -> -> <-.
  exists arg0, f, pre, spec, rom, cl, s6, s8, s2, t8, t9.
  split; [reflexivity |]. split; [| split; assumption].
  cbn. rewrite <- !app_assoc. reflexivity.
Qed.

End Orchestrator.

Lemma issues_only_weaken {R : Type} (Q Q' : forall X : Type, Sys X -> bool)
    (p : Prog R) :
  (forall X (e : Sys X), Q X e = true -> Q' X e = true) ->
  issues_only Q p -> issues_only Q' p.
Proof.
  intros HQ. induction p as [r | msg | X e k IH]; cbn; [auto | auto |].
  intros [He Hk]. split; [apply HQ, He | intros x; apply IH, Hk].
Qed.

Lemma wave_call_not_FileWriteAt (X : Type) (e : Sys X) :
  is_wave_call X e = true -> not_FileWriteAt X e = true.
Proof. destruct e; cbn; congruence. Qed.

Lemma wave_call_blank_with (b : byte) (X : Type) (e : Sys X) :
  is_wave_call X e = true -> blank_with b X e = true.
Proof. destruct e; cbn; congruence. Qed.

Lemma include_call_wave_call (X : Type) (e : Sys X) :
  is_include_call X e = true -> is_wave_call X e = true.
Proof. destruct e; cbn; congruence. Qed.

(** Solve [issues_only] goals by walking through the program. *)
Ltac issues_walk :=
  repeat first
    [ exact I
    | assumption
    | apply issues_only_call; reflexivity
    | apply issues_only_bind; [| intros ?]
    | match goal with
      | |- issues_only _ (match ?x with _ => _ end) => destruct x
      end ].

Lemma byte_of_int_land (z : Z) :
  Main.byte_of_int (Z.land z 255) = Main.byte_of_int z.
Proof.
  unfold Main.byte_of_int. rewrite <- Z.land_assoc. reflexivity.
Qed.

Lemma byte_of_int_value (z : Z) :
  Byte.to_N (Main.byte_of_int z) = Z.to_N (z mod 256).
Proof.
  unfold Main.byte_of_int.
  change 255 with (Z.ones 8). rewrite Z.land_ones by lia.
  change (2 ^ 8) with 256.
  pose proof (Z.mod_pos_bound z 256 ltac:(lia)) as Hb.
  destruct (Byte.of_N (Z.to_N (z mod 256))) as [b |] eqn:Hof.
  - cbn. apply Byte.to_of_N, Hof.
  - apply Byte.of_N_None_iff in Hof. lia.
Qed.

Lemma minSize_exact (s : Z) :
  0 < s -> 1000000 * s <= Main.maxInt ->
  Main.minSize s = 1000000 * s / 8 /\ Main.minSize s = 125000 * s.
Proof.
  unfold Main.minSize, Main.wrapInt, Main.maxInt, Main.intBits.
  intros Hpos Hmax.
  change (2 ^ (64 - 1)) with 9223372036854775808 in *.
  change (2 ^ 64) with 18446744073709551616.
  rewrite (Z.mod_small (1000000 * s + 9223372036854775808)) by lia.
  replace (1000000 * s + 9223372036854775808 - 9223372036854775808)
    with (125000 * s * 8) by lia.
  rewrite Z.quot_mul by lia.
  rewrite (Z.mod_small (125000 * s + 9223372036854775808)) by lia.
  replace (1000000 * s) with (125000 * s * 8) by lia.
  rewrite Z.div_mul by lia. lia.
Qed.

Section OrchestratorClaims.
Context {S : Type} (h : Handler S).
Variable CodeStart : Z.
Import Main.

Lemma mainE_waves_issues (rom : RomFile) (ld as_ objcopy : ExecRunner)
    (waves : list Wave) :
  issues_only is_wave_call (mainE_waves CodeStart rom ld as_ objcopy waves).
Proof.
  induction waves as [| w rest IH]; cbn [mainE_waves]; [exact I |].
  apply issues_only_bind; [| intros [err |]; [exact I | exact IH]].
  unfold mainE_wave.
  apply issues_only_bind.
  { eapply issues_only_weaken; [apply include_call_wave_call |].
    apply mainE_segments_issues. }
  intros e. cbv zeta. issues_walk.
Qed.

(** Without a positive [-s], no run of [mainE] writes at an offset of the
    output file. *)
Lemma mainE_issues_no_pad (fl : Flags) :
  romsizeMbits fl <= 0 -> issues_only not_FileWriteAt (mainE CodeStart fl).
Proof.
  intros Hs. unfold mainE.
  destruct (Args fl) as [| arg0 [| arg1 more]]; [exact I | | exact I].
  unfold mainE_body, mainE_finalize. cbv zeta.
  destruct (decide (romsizeMbits fl > 0)) as [Hpos | _]; [lia |].
  issues_walk.
  eapply issues_only_weaken; [apply wave_call_not_FileWriteAt |].
  apply mainE_waves_issues.
Qed.

(** Every call of [n64rom.NewBlankRomFile] passes the truncated [-f]. *)
Lemma mainE_issues_blank (fl : Flags) :
  issues_only (blank_with (byte_of_int (filldata fl))) (mainE CodeStart fl).
Proof.
  unfold mainE.
  destruct (Args fl) as [| arg0 [| arg1 more]]; [exact I | | exact I].
  unfold mainE_body, mainE_finalize. cbv zeta.
  assert (Heq : Byte.eqb (byte_of_int (filldata fl)) (byte_of_int (filldata fl)) = true)
    by (apply Byte.byte_dec_lb; reflexivity).
  repeat first
    [ exact I
    | apply issues_only_call; first [reflexivity | exact Heq]
    | eapply issues_only_weaken;
        [apply wave_call_blank_with | apply mainE_waves_issues]
    | apply issues_only_bind; [| intros ?]
    | match goal with
      | |- issues_only _ (match ?x with _ => _ end) => destruct x
      | |- issues_only _ (if ?x then _ else _) => destruct x
      end ].
Qed.

(** [mainE] always returns: nil or an error. *)
Lemma mainE_never_panics (fl : Flags) : never_panics (mainE CodeStart fl).
Proof.
  assert (Hinc : forall ld includes, never_panics (mainE_includes ld includes)).
  { intros ld includes. induction includes as [| include rest IH];
      cbn [mainE_includes]; [exact I |].
    apply never_panics_bind; [intros ?; exact I |].
    intros [f | err]; [| exact I].
    apply never_panics_bind; [intros ?; exact I | intros _; exact IH]. }
  assert (Hseg : forall ld segs, never_panics (mainE_segments ld segs)).
  { intros ld segs. induction segs as [| seg rest IH];
      cbn [mainE_segments]; [exact I |].
    apply never_panics_bind; [apply Hinc |].
    intros [err |]; [exact I | exact IH]. }
  assert (Hwaves : forall rom ld as_ objcopy waves,
            never_panics (mainE_waves CodeStart rom ld as_ objcopy waves)).
  { intros rom ld as_ objcopy waves. induction waves as [| w rest IH];
      cbn [mainE_waves]; [exact I |].
    apply never_panics_bind; [| intros [err |]; [exact I | exact IH]].
    unfold mainE_wave. apply never_panics_bind; [apply Hseg |].
    intros e. cbv zeta.
    repeat first
      [ exact I
      | intros ?
      | apply never_panics_bind
      | match goal with |- never_panics (match ?x with _ => _ end) => destruct x end ]. }
  unfold mainE.
  destruct (Args fl) as [| arg0 [| arg1 more]]; [exact I | | exact I].
  unfold mainE_body, mainE_finalize. cbv zeta.
  repeat first
    [ exact I
    | apply Hwaves
    | intros ?
    | apply never_panics_bind
    | match goal with
      | |- never_panics (match ?x with _ => _ end) => destruct x
      | |- never_panics (if ?x then _ else _) => destruct x
      end ].
Qed.




(** Writes that failed, or went to another image, leave the image as it
    was. *)
Lemma rom_image_after_no_write (rom : RomFile) (fill : byte) (tr : Trace)
    (img : list byte) :
  Forall (fun ev => rom_write_done_of rom ev = None) tr ->
  rom_image_after rom fill tr img = img.
Proof.
  intros Htr. unfold rom_image_after.
  replace (omap (rom_write_done_of rom) tr) with (@nil (list byte * Z));
    [reflexivity |].
  induction Htr as [| ev tr Hev _ IH]; [reflexivity |].
  cbn. rewrite Hev. exact IH.
Qed.


End OrchestratorClaims.

Lemma not_FileWriteAt_trace (tr : Trace) :
  Forall (fun ev => call_is not_FileWriteAt ev = true) tr ->
  Forall (fun ev => call_is is_FileWriteAt ev = false) tr.
Proof.
  intros Htr. eapply Forall_impl; [exact Htr |].
  intros [X e x]. unfold call_is, not_FileWriteAt.
  destruct (is_FileWriteAt X e); cbn; congruence.
Qed.

Lemma blank_with_trace (b : byte) (tr : Trace) :
  Forall (fun ev => call_is (blank_with b) ev = true) tr ->
  Forall (fun fill => fill = b) (blank_fills tr).
Proof.
  intros Htr. induction Htr as [| [X e x] tr Hev _ IH]; [constructor |].
  unfold blank_fills in *. destruct e; cbn in *; try exact IH.
  constructor; [apply Byte.byte_dec_bl, Hev | exact IH].
Qed.

Section PaddingAndFill.
Context {S : Type} (h : Handler S).
Variable CodeStart : Z.
Import Main.

(** C6, as amended: for a positive [-s] whose product with 1,000,000 fits
    an [int], the minimum size is 1,000,000*s/8 exactly, and a run of
    [mainE] that ends without error wrote one zero byte at that offset of
    the output file, after creating it and before [rom.Save], and nothing
    else at an offset; the file is then at least one byte longer than the
    minimum size.  For a non-positive [-s] no run writes at an offset of
    the output file. *)
Theorem mainE_pads_to_romsize (fl : Flags) (s s' : S)
    (o : Outcome (option error)) (tr : Trace) :
  exec h (mainE CodeStart fl) s = (o, s', tr) ->
  (0 < romsizeMbits fl -> 1000000 * romsizeMbits fl <= maxInt ->
   minSize (romsizeMbits fl) = 1000000 * romsizeMbits fl / 8 /\
   (o = Done None ->
    exists (out f : File) (rom : RomFile) (k n : Z) (cl : option error)
           (t0 : Trace),
      tr = t0 ++ [Ev (OsCreate (romImageFile fl)) (Ok out);
                  Ev (FileWriteAt out [x00] (1000000 * romsizeMbits fl / 8)) (Ok k);
                  Ev (RomSave rom out) (Ok n);
                  Ev (FileClose out) None;
                  Ev (FileClose f) cl] /\
      Forall (fun ev => call_is is_FileWriteAt ev = false) t0 /\
      1000000 * romsizeMbits fl / 8 + 1 <= file_size_after out tr)) /\
  (romsizeMbits fl <= 0 ->
   Forall (fun ev => call_is is_FileWriteAt ev = false) tr).
Proof.
  intros H. split.
  - intros Hpos Hmax.
    destruct (minSize_exact _ Hpos Hmax) as [Hmin _]. split; [exact Hmin |].
    intros ->.
    apply mainE_done in H
      as (arg0 & f & pre & spec & rom & cl & s1 & s2 & s3 & tw & tf & Hargs & -> & Hw & Hf).
    apply mainE_finalize_done in Hf as (out & n & [(_ & k & ->) | (Hneg & _)]);
      [| lia].
    rewrite Hmin.
    exists out, f, rom, k, n, cl.
    exists ([Ev (LogSetLevel (if verbose fl then DebugLevel else WarnLevel)) tt;
             Ev (OsOpen arg0) (Ok f);
             Ev (PreprocessSpec f (Run.NewRunner (getCommand fl (cppCommand fl) "gcc"))
                   (includeFlags fl) (defineFlags fl) (undefineFlags fl)) (Ok pre);
             Ev (ParseSpec pre) (Ok spec);
             Ev (NewBlankRomFile (byte_of_int (filldata fl))) (Ok rom)] ++ tw).
    split; [rewrite <- !app_assoc; reflexivity |]. split.
    + apply Forall_app. split; [repeat constructor |].
      apply not_FileWriteAt_trace.
      pose proof (issues_only_trace h not_FileWriteAt _ s1
                    (issues_only_weaken _ _ _ wave_call_not_FileWriteAt
                       (mainE_waves_issues CodeStart rom
                          (Run.NewRunner (getCommand fl (ldCommand fl) "ld"))
                          (Run.NewRunner (getCommand fl (asCommand fl) "as"))
                          (Run.NewRunner (getCommand fl (objcopyCommand fl) "objcopy"))
                          (Waves spec)))) as Hf.
      rewrite Hw in Hf. exact Hf.
    + unfold file_size_after. rewrite !foldl_app. cbn [foldl file_size_step length].
      rewrite !decide_True by reflexivity. lia.
  - intros Hs. apply not_FileWriteAt_trace.
    pose proof (issues_only_trace h not_FileWriteAt _ s
                  (mainE_issues_no_pad CodeStart fl Hs)) as Hf.
    rewrite H in Hf. exact Hf.
Qed.

(** C8, as amended: [mainE] never rejects a value of [-f].  It converts the
    value to a byte, which keeps the low eight bits, and every call of
    [n64rom.NewBlankRomFile] receives that byte; the program run for a value
    out of 0x0-0xff is the program run for its low eight bits. *)
Theorem mainE_truncates_fill_byte (fl : Flags) :
  mainE CodeStart fl
    = mainE CodeStart (with_filldata fl (Z.land (filldata fl) 255)) /\
  Byte.to_N (byte_of_int (filldata fl)) = Z.to_N (filldata fl mod 256) /\
  forall s : S,
    Forall (fun fill => fill = byte_of_int (filldata fl))
           (blank_fills (exec h (mainE CodeStart fl) s).2).
Proof.
  split; [| split].
  - unfold mainE, mainE_body, mainE_finalize, with_filldata, getCommand. cbn.
    rewrite byte_of_int_land. reflexivity.
  - apply byte_of_int_value.
  - intros s. apply blank_with_trace.
    apply issues_only_trace, mainE_issues_blank.
Qed.

End PaddingAndFill.

Import Main Sim.


(** In that run the first unit writes three bytes and the second two: an
    image that starts out empty ends up with the two bytes of the second
    unit at the code start, followed by the third byte of the first. *)
Lemma last_unit_overwrites_first :
  drop (Z.to_nat 4096)
       (rom_image_after (mkRomFile 0) x00
          (exec (sim quiet_world) (mainE 4096 (flags 8 0)) 0%nat).2 [])
    = [x0a; x0b; x03].
Proof. vm_compute. reflexivity. Qed.

(** In the run where every write into the image fails, the image is left
    as it was. *)
Lemma failed_writes_leave_image :
  forall (fill : byte) (img : list byte),
    rom_image_after (mkRomFile 0) fill
      (exec (sim failing_wrap_and_write) (mainE 4096 (flags 8 0)) 0%nat).2 img = img.
Proof.
  intros fill img. apply rom_image_after_no_write.
  vm_compute. repeat constructor.
Qed.

(** For a size whose product with 1,000,000 overflows [int] the computed
    minimum size is not 1,000,000*s/8; it is negative. *)
Lemma minSize_overflows :
  0 < 9223372036855 /\
  minSize 9223372036855 = -1152921504606818952 /\
  1000000 * 9223372036855 / 8 = 1152921504606875000 /\
  minSize 9223372036855 <> 1000000 * 9223372036855 / 8.
Proof. repeat split; vm_compute; congruence. Qed.

(** An instance: [-s 8]; the output file ends up at least 1,000,001 bytes
    long. *)
Lemma mainE_pads_to_romsize_witness :
  exists (s' : nat) (tr : Trace),
    exec (sim quiet_world) (mainE 4096 (flags 8 0)) 0%nat = (Done None, s', tr) /\
    0 < 8 /\ 1000000 * 8 <= maxInt /\
    minSize 8 = 1000000 * 8 / 8 /\
    exists (out f : File) (rom : RomFile) (k n : Z) (cl : option error)
           (t0 : Trace),
      tr = t0 ++ [Ev (OsCreate "rom.n64") (Ok out);
                  Ev (FileWriteAt out [x00] (1000000 * 8 / 8)) (Ok k);
                  Ev (RomSave rom out) (Ok n);
                  Ev (FileClose out) None;
                  Ev (FileClose f) cl] /\
      Forall (fun ev => call_is is_FileWriteAt ev = false) t0 /\
      1000000 * 8 / 8 + 1 <= file_size_after out tr.
Proof.
  eexists _, _. split; [reflexivity |].
  assert (Hpos : 0 < romsizeMbits (flags 8 0)) by reflexivity.
  assert (Hmax : 1000000 * romsizeMbits (flags 8 0) <= maxInt)
    by (vm_compute; discriminate).
  split; [exact Hpos |]. split; [exact Hmax |].
  destruct (mainE_pads_to_romsize (sim quiet_world) 4096 (flags 8 0) 0%nat _ _ _
              eq_refl) as [Hpad _].
  destruct (Hpad Hpos Hmax) as [Hmin Hrun].
  split; [exact Hmin |]. exact (Hrun eq_refl).
Defined.

(** With [-f 0x1ff] the ROM image is initialised, with the fill byte 0xff,
    and the run ends without error. *)
Lemma mainE_accepts_out_of_range_fill :
  exists (s' : nat) (tr : Trace),
    exec (sim quiet_world) (mainE 4096 (flags 8 511)) 0%nat = (Done None, s', tr) /\
    ~ (0 <= 511 <= 255) /\
    blank_fills tr = [xff] /\
    Ev (NewBlankRomFile xff) (Ok (mkRomFile 0)) ∈ tr.
Proof.
  eexists _, _. split; [vm_compute; reflexivity |].
  split; [lia |]. split; [reflexivity |].
  repeat first [apply list_elem_of_here | apply list_elem_of_further].
Qed.

(** C2: a run in which wrapping the include file fails and both writes
    into the ROM image fail.  [mainE] returns no error and the process
    exits with status 0: the result of [CreateRawObjectWrapper] is not
    bound, and the error of [rom.WriteAt] is not assigned to the [err]
    that is tested after it. *)
Theorem mainE_suppresses_wrap_and_write_errors :
  exists (s' : nat) (tr : Trace),
    exec (sim failing_wrap_and_write) (main 4096 (flags 8 0)) 0%nat
      = (Done 0, s', tr) /\
    (exec (sim failing_wrap_and_write) (mainE 4096 (flags 8 0)) 0%nat).1.1
      = Done None /\
    Ev (CreateRawObjectWrapper (mkFile 1 "a.bin") "a.bin.o" (mkExecRunner "mips64-elf-ld"))
       (Err (ErrorString "Error running 'ld': exit status 1: ")) ∈ tr /\
    Ev (RomWriteAt (mkRomFile 0) [x01; x02; x03] 4096)
       (Err (ForeignError "write beyond the image")) ∈ tr /\
    Ev (RomWriteAt (mkRomFile 0) [x0a; x0b] 4096)
       (Err (ForeignError "write beyond the image")) ∈ tr /\
    Ev (RomSave (mkRomFile 0) (mkFile 2 "rom.n64")) (Ok 4096) ∈ tr.
Proof.
  eexists _, _. split; [vm_compute; reflexivity |].
  split; [vm_compute; reflexivity |].
  repeat split;
    repeat first [apply list_elem_of_here | apply list_elem_of_further].
Qed.

(** * Further properties *)

(** ** run.go *)

(** The error an event reports, if it reports one. *)
Lemma open_files_from_app (acc : list File) (t1 t2 : Trace) :
  open_files_from acc (t1 ++ t2) = open_files_from (open_files_from acc t1) t2.
Proof. unfold open_files_from. apply foldl_app. Qed.

Section RunnersMore.
Context {S : Type} (h : Handler S).
Import Run.

(** Every run of [ExecRunner.Run]: it panics on the command line it cannot
    quote, or makes its four calls and returns by the error of the
    command. *)
Lemma ExecRunner_Run_cases (e : ExecRunner) (r : Reader) (args : list string)
    (s s' : S) (o : Outcome (result Reader)) (tr : Trace) :
  exec h (Run e r args) s = (o, s', tr) ->
  (exists qerr : error,
     o = Panicked ("shellquote.Command:" +:+ Error qerr) /\
     tr = [Ev (ShellquoteCommand (command e :: args)) (Err qerr);
           Ev (LogMsg PanicLevel ["shellquote.Command:"; Error qerr]) tt]) \/
  (exists (text : string) (out errout : list byte) (oerr : option error),
     tr = [Ev (ShellquoteCommand (command e :: args)) (Ok text);
           Ev (LogMsg InfoLevel ["Running"; text]) tt;
           Ev (CmdRun (command e) args r) (out, errout, oerr);
           Ev (LogMsg DebugLevel ["stdout: "; string_of_list_byte out]) tt] /\
     o = Done match oerr with
              | Some err =>
                  Err (ErrorString
                    ("Error running '" +:+ command e +:+ "': " +:+ Error err
                     +:+ ": " +:+ string_of_list_byte errout))
              | None => Ok (BufferReader out)
              end).
Proof.
  change (Run e r args) with (ExecRunner_Run e r args).
  unfold ExecRunner_Run, logCommand. intros H.
  rewrite exec_bind in H. exec_step H as q s1.
  destruct q as [text | qerr].
  - rewrite exec_call in H.
    destruct (h _ (LogMsg InfoLevel ["Running"; text]) s1) as [[] s1'].
    cbn [fst snd] in H. cbn iota beta in H.
    exec_step H as p s2. destruct p as [[out errout] oerr].
    exec_step H as u s3. destruct u.
    right. exists text, out, errout, oerr.
    destruct oerr as [err |]; exec_done H; injection H as <- <- <-;
      split; reflexivity.
  - rewrite exec_bind, exec_call in H.
    destruct (h _ (LogMsg PanicLevel ["shellquote.Command:"; Error qerr]) s1)
      as [[] s1'].
    cbn [fst snd] in H. cbn iota beta in H.
    injection H as <- <- <-. left. exists qerr. split; reflexivity.
Qed.

(** X1: when the command line cannot be shell-quoted, [ExecRunner.Run]
    panics after logging the quoting error, and the command is not run. *)
Theorem ExecRunner_Run_unquotable_panics (e : ExecRunner) (r : Reader)
    (args : list string) (s s1 : S) (qerr : error) :
  h _ (ShellquoteCommand (command e :: args)) s = (Err qerr, s1) ->
  exists (s' : S) (tr : Trace),
    exec h (Run e r args) s
      = (Panicked ("shellquote.Command:" +:+ Error qerr), s', tr) /\
    tr = [Ev (ShellquoteCommand (command e :: args)) (Err qerr);
          Ev (LogMsg PanicLevel ["shellquote.Command:"; Error qerr]) tt] /\
    Forall (fun ev => call_is is_CmdRun ev = false) tr.
Proof.
  intros Hq.
  change (Run e r args) with (ExecRunner_Run e r args).
  unfold ExecRunner_Run, logCommand.
  rewrite exec_bind, exec_call_bind.
  change ([command e] ++ args) with (command e :: args). rewrite Hq.
  cbn [fst snd]. rewrite exec_bind, exec_call.
  destruct (h _ (LogMsg PanicLevel ["shellquote.Command:"; Error qerr]) s1)
    as [[] s1'].
  cbn [fst snd]. cbn iota beta.
  eexists _, _. split; [reflexivity |]. split; [reflexivity |].
  repeat constructor.
Qed.

(** X2: a run of [ExecRunner.Run] that returns has run the command exactly
    once, with the arguments and the standard input it was given, after
    logging the quoted command line of the program followed by its
    arguments. *)
Theorem ExecRunner_Run_runs_command_once (e : ExecRunner) (r : Reader)
    (args : list string) (s s' : S) (res : result Reader) (tr : Trace) :
  exec h (Run e r args) s = (Done res, s', tr) ->
  exists (text : string) (reply : list byte * list byte * option error),
    tr = [Ev (ShellquoteCommand (command e :: args)) (Ok text);
          Ev (LogMsg InfoLevel ["Running"; text]) tt;
          Ev (CmdRun (command e) args r) reply;
          Ev (LogMsg DebugLevel ["stdout: "; string_of_list_byte reply.1.1]) tt] /\
    omap cmd_reply_of tr = [(command e, args, r, reply)].
Proof.
  intros H.
  apply ExecRunner_Run_cases in H
    as [(qerr & Ho & _) | (text & out & errout & oerr & -> & _)];
    [discriminate |].
  exists text, (out, errout, oerr). split; reflexivity.
Qed.

(** X3: when the inner runner fails or panics, [OutputFileRunner.Run] ends
    the same way with no further call: the output file is not opened. *)
Theorem OutputFileRunner_Run_inner_failure {T : Type} `{Runner T}
    (e : OutputFileRunner T) (r : Reader) (args : list string)
    (o : Outcome (result Reader)) (s s1 : S) (t1 : Trace) :
  exec h (Run (ofr_runner e) r args) s = (o, s1, t1) ->
  (forall v, o <> Done (Ok v)) ->
  exec h (Run e r args) s = (o, s1, t1).
Proof.
  intros Hinner Hfail.
  change (Run e r args) with (OutputFileRunner_Run e r args).
  unfold OutputFileRunner_Run. rewrite exec_bind, Hinner.
  destruct o as [[v | err] | msg].
  - destruct (Hfail v). reflexivity.
  - rewrite exec_ret. rewrite app_nil_r. reflexivity.
  - reflexivity.
Qed.

(** X4: [OutputFileRunner] around [ExecRunner].  In a run that returns,
    the command was run; when it failed the result is its error and
    [os.Open] was not called; when it succeeded the last call is [os.Open]
    on the expected output file and the result is the file or the error of
    [os.Open], whatever the command printed. *)
Theorem OutputFileRunner_over_ExecRunner (cmd file : string) (r : Reader)
    (args : list string) (s s' : S) (res : result Reader) (tr : Trace) :
  exec h (Run (NewOutputFileRunner (NewRunner cmd) file) r args) s
    = (Done res, s', tr) ->
  exists (out errout : list byte) (oerr : option error),
    omap cmd_reply_of tr = [(cmd, args, r, (out, errout, oerr))] /\
    match oerr with
    | Some err =>
        res = Err (ErrorString
                ("Error running '" +:+ cmd +:+ "': " +:+ Error err +:+ ": "
                 +:+ string_of_list_byte errout)) /\
        Forall (fun ev => call_is is_OsOpen ev = false) tr
    | None =>
        exists opened : result File,
          last tr = Some (Ev (OsOpen file) opened) /\
          res = match opened with
                | Ok f => Ok (FileReader f)
                | Err err => Err err
                end
    end.
Proof.
  change (Run (NewOutputFileRunner (NewRunner cmd) file) r args)
    with (OutputFileRunner_Run (NewOutputFileRunner (NewRunner cmd) file) r args).
  unfold OutputFileRunner_Run. cbn [ofr_runner expectedOutputFile NewOutputFileRunner].
  intros H. rewrite exec_bind in H.
  destruct (exec h (Run (NewRunner cmd) r args) s) as [[o1 s1] t1] eqn:Hinner.
  apply ExecRunner_Run_cases in Hinner
    as [(qerr & -> & _) | (text & out & errout & oerr & -> & ->)];
    [discriminate |].
  exists out, errout, oerr. cbn [command NewRunner] in *.
  destruct oerr as [err |].
  - rewrite exec_ret in H. cbn iota beta in H. injection H as <- <- <-.
    split; [reflexivity |]. split; [reflexivity | repeat constructor].
  - exec_step H as opened s2.
    destruct opened as [f | err]; exec_done H; injection H as <- <- <-;
      (split; [reflexivity |]); eexists; split; reflexivity.
Qed.

(** X9: a successful [writeTempFile] created one temporary file, in the
    default directory and with the prefix it was given, copied the stream
    into it and closed it; no file is left open, and the path returned is
    the absolute form of the name of that file. *)
Theorem writeTempFile_success (rd : Reader) (pfx path : string) (s s' : S)
    (tr : Trace) :
  exec h (writeTempFile rd pfx) s = (Done (Ok path), s', tr) ->
  exists (f : File) (n : Z),
    omap tempfile_of tr = [(pfx, f)] /\
    Ev (IoutilTempFile EmptyString pfx) (Ok f) ∈ tr /\
    Ev (FilepathAbs (Name f)) (Ok path) ∈ tr /\
    Ev (IoCopy f rd) (Ok n) ∈ tr /\
    last tr = Some (Ev (FileClose f) None) /\
    open_files tr = [].
Proof.
  intros H. apply writeTempFile_cases in H
    as [(err & Ho & _) | [(f & err & Ho & _) | [(f & p & err & Ho & _)
       | [(f & p & n & err & Ho & _) | (f & p & n & Ho & -> & Hopen)]]]];
    try discriminate.
  injection Ho as <-. exists f, n.
  split; [reflexivity |]. repeat split; try exact Hopen; set_solver.
Qed.

End RunnersMore.

Section SubstitutionMore.
Context {S : Type} (h : Handler S).
Import Run.

(** The loop on tokens that are no keys: no call, and the tokens are copied
    to their positions. *)
Lemma stageArgs_no_keys (m : gmap string Reader) (args : list string) :
  forall (i : nat) (acc : list string) (s : S),
    (forall a, a ∈ args -> m !! a = None) ->
    (i + length args <= length acc)%nat ->
    exec h (stageArgs m i args acc) s
      = (Done (Ok (take i acc ++ args ++ drop (i + length args) acc)), s, []).
Proof.
  induction args as [| arg rest IH]; intros i acc s Hno Hlen.
  - cbn. rewrite Nat.add_0_r, take_drop. reflexivity.
  - cbn [stageArgs length] in *.
    rewrite (Hno arg) by set_solver.
    rewrite IH; [| intros a Ha; apply Hno; set_solver | rewrite length_insert; lia].
    replace (Datatypes.S i + length rest)%nat
      with (i + Datatypes.S (length rest))%nat by lia.
    rewrite (take_S_r _ _ arg) by (apply list_lookup_insert_eq; lia).
    rewrite take_insert_ge by lia.
    rewrite drop_insert_lt by lia.
    rewrite <- app_assoc. reflexivity.
Qed.

(** A loop that completes: the temporary files were created in the order of
    the key tokens, and all of them are closed. *)
Lemma stageArgs_files (m : gmap string Reader) (args : list string) :
  forall (i : nat) (acc : list string) (s s' : S) (newArgs : list string)
         (tr : Trace),
    exec h (stageArgs m i args acc) s = (Done (Ok newArgs), s', tr) ->
    tempfile_prefixes tr = key_tokens m args /\ open_files tr = [].
Proof.
  induction args as [| arg rest IH]; intros i acc s s' newArgs tr H.
  - cbn in H. injection H as <- <- <-. split; reflexivity.
  - cbn [stageArgs] in H. unfold key_tokens. rewrite filter_cons.
    destruct (m !! arg) as [rd |] eqn:Hm.
    + apply exec_bind_done in H as (t & s1 & t1 & t2 & Hw & H & ->).
      destruct t as [tempFile | err]; [| exec_done H; discriminate].
      apply IH in H as (Hpfx & Hopen).
      apply writeTempFile_cases in Hw
        as [(err & Ho & _) | [(f & err & Ho & _) | [(f & p & err & Ho & _)
           | [(f & p & n & err & Ho & _) | (f & p & n & Ho & -> & Hop1)]]]];
        try discriminate.
      rewrite decide_True by eauto. split.
      * unfold tempfile_prefixes in *. rewrite omap_app, fmap_app, Hpfx.
        reflexivity.
      * unfold open_files in *. rewrite open_files_from_app, Hop1. exact Hopen.
    + rewrite decide_False by (intros [x Hx]; discriminate).
      eapply IH, H.
Qed.

(** X5: when no token of the argument list is a key of the mapping (an
    empty list and an empty mapping included), [MappedFileRunner.Run]
    stages nothing: its first calls are those of the inner runner, run on
    the unchanged argument list from the state [Run] started in.  When the
    inner run fails or panics that is the outcome; when it succeeds one
    more call reads the output file and its bytes, or its error, are the
    result. *)
Theorem MappedFileRunner_Run_no_keys {T : Type} `{Runner T}
    (e : MappedFileRunner T) (r : Reader) (args : list string)
    (o1 : Outcome (result Reader)) (s s1 : S) (t1 : Trace) :
  (forall a, a ∈ args -> inputFileArgs e !! a = None) ->
  exec h (Run (mfr_runner e) r args) s = (o1, s1, t1) ->
  exec h (stageArgs (inputFileArgs e) 0 args (replicate (length args) EmptyString)) s
    = (Done (Ok args), s, []) /\
  exec h (Run e r args) s =
    match o1 with
    | Done (Ok _) =>
        (Done match (h _ (IoutilReadFile (outputFileArg e)) s1).1 with
              | Ok b => Ok (BufferReader b)
              | Err err => Err err
              end,
         (h _ (IoutilReadFile (outputFileArg e)) s1).2,
         t1 ++ [Ev (IoutilReadFile (outputFileArg e))
                   (h _ (IoutilReadFile (outputFileArg e)) s1).1])
    | _ => (o1, s1, t1)
    end.
Proof.
  intros Hno Hinner.
  assert (Hloop :
    exec h (stageArgs (inputFileArgs e) 0 args (replicate (length args) EmptyString)) s
    = (Done (Ok args), s, [])).
  { rewrite stageArgs_no_keys; [| exact Hno | rewrite length_replicate; lia].
    rewrite drop_ge by (rewrite length_replicate; lia).
    cbn. rewrite app_nil_r. reflexivity. }
  split; [exact Hloop |].
  rewrite MappedFileRunner_Run_unfold, Hloop. unfold runStaged.
  rewrite exec_bind, Hinner.
  destruct o1 as [[v | err] | msg].
  - rewrite exec_call_bind.
    destruct (h _ (IoutilReadFile (outputFileArg e)) s1) as [[b | err] s2];
      cbn [fst snd]; rewrite exec_ret; reflexivity.
  - rewrite exec_ret. rewrite app_nil_r. reflexivity.
  - reflexivity.
Qed.

(** X6: when the arguments are staged and the inner runner fails or
    panics, [MappedFileRunner.Run] ends the same way after the inner run:
    the output file is not read. *)
Theorem MappedFileRunner_Run_inner_failure {T : Type} `{Runner T}
    (e : MappedFileRunner T) (r : Reader) (args newArgs : list string)
    (o : Outcome (result Reader)) (s s1 s2 : S) (t1 t2 : Trace) :
  exec h (stageArgs (inputFileArgs e) 0 args (replicate (length args) EmptyString)) s
    = (Done (Ok newArgs), s1, t1) ->
  exec h (Run (mfr_runner e) r newArgs) s1 = (o, s2, t2) ->
  (forall v, o <> Done (Ok v)) ->
  exec h (Run e r args) s = (o, s2, t1 ++ t2).
Proof.
  intros Hloop Hinner Hfail.
  rewrite MappedFileRunner_Run_unfold, Hloop. unfold runStaged.
  rewrite exec_bind, Hinner.
  destruct o as [[v | err] | msg].
  - destruct (Hfail v). reflexivity.
  - rewrite exec_ret. rewrite app_nil_r. reflexivity.
  - reflexivity.
Qed.

(** X7: when the arguments are staged and the inner runner succeeds,
    [MappedFileRunner.Run] reads the file named by [outputFileArg], the
    name taken as it is and not looked up in the mapping, and returns its
    bytes or the error of the read; the stream the inner runner returned
    is dropped. *)
Theorem MappedFileRunner_Run_reads_output {T : Type} `{Runner T}
    (e : MappedFileRunner T) (r : Reader) (args newArgs : list string)
    (v : Reader) (s s1 s2 : S) (t1 t2 : Trace) :
  exec h (stageArgs (inputFileArgs e) 0 args (replicate (length args) EmptyString)) s
    = (Done (Ok newArgs), s1, t1) ->
  exec h (Run (mfr_runner e) r newArgs) s1 = (Done (Ok v), s2, t2) ->
  exec h (Run e r args) s =
    (Done match (h _ (IoutilReadFile (outputFileArg e)) s2).1 with
          | Ok b => Ok (BufferReader b)
          | Err err => Err err
          end,
     (h _ (IoutilReadFile (outputFileArg e)) s2).2,
     t1 ++ t2 ++ [Ev (IoutilReadFile (outputFileArg e))
                     (h _ (IoutilReadFile (outputFileArg e)) s2).1]).
Proof.
  intros Hloop Hinner.
  rewrite MappedFileRunner_Run_unfold, Hloop. unfold runStaged.
  rewrite exec_bind, Hinner, exec_call_bind.
  destruct (h _ (IoutilReadFile (outputFileArg e)) s2) as [[b | err] s3];
    cbn [fst snd]; rewrite exec_ret; reflexivity.
Qed.

(** X8: in a run whose loop completes, the temporary files are created in
    the order of the argument list: their prefixes are the tokens of the
    list that are keys of the mapping, in order and with repetitions. *)
Theorem MappedFileRunner_Run_stages_in_order {T : Type} `{Runner T}
    (e : MappedFileRunner T) (args newArgs : list string)
    (s s' : S) (tr : Trace) :
  exec h (stageArgs (inputFileArgs e) 0 args (replicate (length args) EmptyString)) s
    = (Done (Ok newArgs), s', tr) ->
  tempfile_prefixes tr = key_tokens (inputFileArgs e) args.
Proof. intros Hloop. eapply stageArgs_files, Hloop. Qed.

(** X11: in a run whose loop completes, every temporary file is closed
    before the inner runner is started: the staging leaves no file open. *)
Theorem MappedFileRunner_Run_closes_staged_files {T : Type} `{Runner T}
    (e : MappedFileRunner T) (r : Reader) (args newArgs : list string)
    (s s' : S) (tr : Trace) :
  exec h (stageArgs (inputFileArgs e) 0 args (replicate (length args) EmptyString)) s
    = (Done (Ok newArgs), s', tr) ->
  open_files tr = [] /\
  exec h (Run e r args) s =
    (let '(o, s2, t2) := exec h (runStaged e r newArgs) s' in (o, s2, tr ++ t2)).
Proof.
  intros Hloop. split; [eapply stageArgs_files, Hloop |].
  rewrite MappedFileRunner_Run_unfold, Hloop. reflexivity.
Qed.

(** X10: when [writeTempFile] fails, the error it returns is the error of
    the last call it made, and every call before that one succeeded. *)
Theorem writeTempFile_returns_first_failure (rd : Reader) (pfx : string)
    (err : error) (s s' : S) (tr : Trace) :
  exec h (writeTempFile rd pfx) s = (Done (Err err), s', tr) ->
  exists (t0 : Trace) (ev : Event),
    tr = t0 ++ [ev] /\
    reply_error_of ev = Some err /\
    Forall (fun ev' => reply_error_of ev' = None) t0.
Proof.
  intros H. apply writeTempFile_cases in H
    as [(e1 & Ho & -> & _) | [(f & e1 & Ho & -> & _) | [(f & p & e1 & Ho & -> & _)
       | [(f & p & n & e1 & Ho & -> & _) | (f & p & n & Ho & _)]]]];
    try discriminate; injection Ho as <-.
  - exists [], (Ev (IoutilTempFile EmptyString pfx) (Err err)).
    repeat split. constructor.
  - exists [Ev (IoutilTempFile EmptyString pfx) (Ok f)],
           (Ev (FilepathAbs (Name f)) (Err err)).
    repeat split. repeat constructor.
  - eexists [_; _; _], _. split; [reflexivity |]. split; [reflexivity |].
    repeat constructor.
  - eexists [_; _; _; _], _. split; [reflexivity |]. split; [reflexivity |].
    repeat constructor.
Qed.

End SubstitutionMore.

(** ** cmd/spicy/main.go: checked calls *)

Section FailFast.
Context {S : Type} (h : Handler S).

Lemma fails_fast_ret (n : nat) (r : option error) : fails_fast_from h n (mret r).
Proof.
  intros s s' o tr H. rewrite exec_ret in H. injection H as <- <- <-.
  intros i ev err Hi. destruct i; discriminate.
Qed.

(** A call whose result is tested, with the error wrapped by [wrap]. *)
Lemma fails_fast_checked {T : Type} (n : nat) (e : Sys (result T))
    (wrap : error -> error) (k : T -> Prog (option error)) :
  (forall err, abort_error n (Ev e (Err err)) = Some (wrap err)) ->
  (forall v, abort_error n (Ev e (Ok v)) = None) ->
  (forall v, fails_fast_from h (Datatypes.S n) (k v)) ->
  fails_fast_from h n
    (x ← call e;
     match x with
     | Ok v => k v
     | Err err => mret (Some (wrap err))
     end).
Proof.
  intros Herr Hok Hk s s' o tr H.
  rewrite exec_call_bind in H. destruct (h _ e s) as [[v | err] s1]; cbn [fst snd] in H.
  - destruct (exec h (k v) s1) as [[o2 s2] t2] eqn:Hrun.
    injection H as <- <- <-. intros i ev err Hi Hab.
    destruct i as [| i]; cbn in Hi.
    + injection Hi as <-. rewrite Nat.add_0_r, Hok in Hab. discriminate.
    + rewrite Nat.add_succ_r in Hab. eapply Hk; eassumption.
  - rewrite exec_ret in H. injection H as <- <- <-. intros i ev err' Hi Hab.
    destruct i as [| i]; cbn in Hi; [| destruct i; discriminate].
    injection Hi as <-. rewrite Nat.add_0_r, Herr in Hab. congruence.
Qed.

(** A call whose result is not tested and never counts as a failure. *)
Lemma fails_fast_unchecked {X : Type} (n : nat) (e : Sys X)
    (k : X -> Prog (option error)) :
  (forall x, abort_error n (Ev e x) = None) ->
  (forall x, fails_fast_from h (Datatypes.S n) (k x)) ->
  fails_fast_from h n (call e ≫= k).
Proof.
  intros Hno Hk s s' o tr H.
  rewrite exec_call_bind in H. destruct (h _ e s) as [x s1]; cbn [fst snd] in H.
  destruct (exec h (k x) s1) as [[o2 s2] t2] eqn:Hrun.
  injection H as <- <- <-. intros i ev err Hi Hab.
  destruct i as [| i]; cbn in Hi.
  - injection Hi as <-. rewrite Nat.add_0_r, Hno in Hab. discriminate.
  - rewrite Nat.add_succ_r in Hab. eapply Hk; eassumption.
Qed.

(** [p], then [q] unless [p] returned an error. *)
Lemma fails_fast_seq (n : nat) (p q : Prog (option error)) :
  fails_fast_from h n p ->
  (forall m, (n <= m)%nat -> fails_fast_from h m q) ->
  fails_fast_from h n
    (e ← p;
     match e with
     | Some err => mret (Some err)
     | None => q
     end).
Proof.
  intros Hp Hq s s' o tr H. rewrite exec_bind in H.
  destruct (exec h p s) as [[[e | msg] s1] t1] eqn:Hrun.
  - destruct e as [err |].
    + rewrite exec_ret in H. injection H as <- <- <-.
      rewrite app_nil_r. eapply Hp, Hrun.
    + destruct (exec h q s1) as [[o2 s2] t2] eqn:Hrun2.
      injection H as <- <- <-. intros i ev err Hi Hab. unfold Trace in Hi.
      destruct (decide (i < length t1)%nat) as [Hlt | Hge].
      * rewrite lookup_app_l in Hi by exact Hlt.
        pose proof (Hp _ _ _ _ Hrun i ev err Hi Hab). discriminate.
      * rewrite lookup_app_r in Hi by lia.
        eapply (Hq (n + length t1)%nat); [lia | exact Hrun2 | exact Hi |].
        replace (n + length t1 + (i - length t1))%nat with (n + i)%nat by lia.
        exact Hab.
  - injection H as <- <- <-. eapply Hp, Hrun.
Qed.

(** [p] followed by a call that changes nothing of its result. *)
Lemma fails_fast_deferred {X : Type} (n : nat) (p : Prog (option error))
    (e : Sys X) :
  (forall i x, abort_error i (Ev e x) = None) ->
  fails_fast_from h n p ->
  fails_fast_from h n (res ← p; call e ;; mret res).
Proof.
  intros Hno Hp s s' o tr H. rewrite exec_bind in H.
  destruct (exec h p s) as [[[res | msg] s1] t1] eqn:Hrun.
  - rewrite exec_call_bind in H. destruct (h _ e s1) as [x s2]; cbn [fst snd] in H.
    rewrite exec_ret in H. injection H as <- <- <-. intros i ev err Hi Hab.
    unfold Trace in Hi.
    destruct (decide (i < length t1)%nat) as [Hlt | Hge].
    + rewrite lookup_app_l in Hi by exact Hlt. eapply Hp; eassumption.
    + rewrite lookup_app_r in Hi by lia.
      destruct (i - length t1)%nat as [| j]; cbn in Hi; [| destruct j; discriminate].
      injection Hi as <-. rewrite Hno in Hab. discriminate.
  - injection H as <- <- <-. eapply Hp, Hrun.
Qed.

Lemma fails_fast_last {X : Type} (n : nat) (e : Sys X) (f : X -> option error) :
  (forall x, abort_error n (Ev e x) = None) ->
  fails_fast_from h n (x ← call e; mret (f x)).
Proof.
  intros Hno. apply fails_fast_unchecked; [exact Hno |].
  intros x. apply fails_fast_ret.
Qed.

Variable CodeStart : Z.
Import Main.

(** An [os.Open] after the second call of the run opens an include file. *)
Lemma abort_error_include (n : nat) (path : string) (err : error) :
  (2 <= n)%nat ->
  abort_error n (Ev (OsOpen path) (Err err))
    = Some (ErrorString ("could not open include: " +:+ Error err)).
Proof.
  intros Hn. cbn. destruct (decide (n = 1%nat)); [lia | reflexivity].
Qed.

Lemma mainE_includes_fails_fast (ld : ExecRunner) (includes : list string) :
  forall n, (2 <= n)%nat -> fails_fast_from h n (mainE_includes ld includes).
Proof.
  induction includes as [| include rest IH]; intros n Hn; cbn [mainE_includes].
  - apply fails_fast_ret.
  - apply (fails_fast_checked n (OsOpen include)
             (fun err => ErrorString ("could not open include: " +:+ Error err))
             (fun f => call (CreateRawObjectWrapper f (include +:+ ".o") ld) ;;
                       mainE_includes ld rest)).
    + intros err. apply abort_error_include, Hn.
    + reflexivity.
    + intros f. apply fails_fast_unchecked; [reflexivity |].
      intros _. apply IH. lia.
Qed.

Lemma mainE_segments_fails_fast (ld : ExecRunner) (segs : list Segment) :
  forall n, (2 <= n)%nat -> fails_fast_from h n (mainE_segments ld segs).
Proof.
  induction segs as [| seg rest IH]; intros n Hn; cbn [mainE_segments].
  - apply fails_fast_ret.
  - apply fails_fast_seq; [apply mainE_includes_fails_fast, Hn |].
    intros m Hm. apply IH. lia.
Qed.

Lemma mainE_wave_fails_fast (rom : RomFile) (ld as_ objcopy : ExecRunner) (w : Wave) :
  forall n, (2 <= n)%nat ->
    fails_fast_from h n (mainE_wave CodeStart rom ld as_ objcopy w).
Proof.
  intros n Hn. unfold mainE_wave.
  apply fails_fast_seq; [apply mainE_segments_fails_fast, Hn |].
  intros m Hm.
  apply (fails_fast_checked m (CreateEntryBinary w as_)
           (fun err => ErrorString ("spicy.CreateEntryBinary: " +:+ Error err)));
    [reflexivity | reflexivity | intros entry].
  apply (fails_fast_checked _ (LinkSpec w ld entry)
           (fun err => ErrorString ("spicy.LinkSpec: " +:+ Error err)));
    [reflexivity | reflexivity | intros linked].
  apply (fails_fast_checked _ (BinarizeObject linked objcopy)
           (fun err => ErrorString ("spicy.BinarizeObject: " +:+ Error err)));
    [reflexivity | reflexivity | intros bin].
  apply (fails_fast_checked _ (IoutilReadAll bin)
           (fun err => ErrorString ("could not read binarized object: " +:+ Error err)));
    [reflexivity | reflexivity | intros bytes].
  cbv zeta.
  apply fails_fast_unchecked; [reflexivity | intros _; apply fails_fast_ret].
Qed.

Lemma mainE_waves_fails_fast (rom : RomFile) (ld as_ objcopy : ExecRunner)
    (waves : list Wave) :
  forall n, (2 <= n)%nat ->
    fails_fast_from h n (mainE_waves CodeStart rom ld as_ objcopy waves).
Proof.
  induction waves as [| w rest IH]; intros n Hn; cbn [mainE_waves].
  - apply fails_fast_ret.
  - apply fails_fast_seq; [apply mainE_wave_fails_fast, Hn |].
    intros m Hm. apply IH. lia.
Qed.

Lemma mainE_finalize_fails_fast (fl : Flags) (rom : RomFile) (n : nat) :
  fails_fast_from h n (mainE_finalize fl rom).
Proof.
  unfold mainE_finalize.
  apply (fails_fast_checked n (OsCreate (romImageFile fl))
           (fun err => ErrorString ("could not create ROM: " +:+ Error err)));
    [reflexivity | reflexivity | intros out].
  apply fails_fast_seq.
  - destruct (decide (romsizeMbits fl > 0)); [| apply fails_fast_ret].
    apply (fails_fast_checked _
             (FileWriteAt out [x00] (minSize (romsizeMbits fl)))
             (fun err => err) (fun _ => mret None));
      [reflexivity | reflexivity | intros _; apply fails_fast_ret].
  - intros m Hm.
    apply (fails_fast_checked m (RomSave rom out)
             (fun err => ErrorString ("could not write ROM: " +:+ Error err)));
      [reflexivity | reflexivity | intros _].
    apply (fails_fast_last _ (FileClose out) (fun x => x)). reflexivity.
Qed.

Lemma mainE_fails_fast (fl : Flags) : fails_fast_from h 0 (mainE CodeStart fl).
Proof.
  unfold mainE.
  destruct (Args fl) as [| arg0 [| arg1 more]];
    [apply fails_fast_ret | | apply fails_fast_ret].
  apply fails_fast_unchecked; [reflexivity | intros _].
  apply (fails_fast_checked 1 (OsOpen arg0)
           (fun err => ErrorString ("could not open spec: " +:+ Error err)));
    [reflexivity | reflexivity | intros f].
  apply fails_fast_deferred; [reflexivity |].
  unfold mainE_body. cbv zeta.
  apply (fails_fast_checked 2 (PreprocessSpec _ _ _ _ _)
           (fun err => ErrorString ("could not preprocess spec: " +:+ Error err)));
    [reflexivity | reflexivity | intros pre].
  apply (fails_fast_checked 3 (ParseSpec pre)
           (fun err => ErrorString ("could not parse spec: " +:+ Error err)));
    [reflexivity | reflexivity | intros spec].
  apply (fails_fast_checked 4 (NewBlankRomFile _)
           (fun err => ErrorString ("n64rom.NewBlankRomFile: " +:+ Error err)));
    [reflexivity | reflexivity | intros rom].
  apply fails_fast_seq; [apply mainE_waves_fails_fast; lia |].
  intros m Hm. apply mainE_finalize_fails_fast.
Qed.

(** X15: whenever a call that [mainE] checks fails, the run returns the
    error the code builds for that call: [could not open spec: ] and the
    text of the error for the [os.Open] of the spec file, the second call
    of a run; [could not open include: ] and the text for every later
    [os.Open]; the message of the stage and the text for the preprocessor,
    the parser, [n64rom.NewBlankRomFile], the entry binary, the linker, the
    binarizer, [ioutil.ReadAll], [os.Create] and [rom.Save]; and the error
    itself for the padding write. *)
Theorem mainE_returns_error_of_failed_call (fl : Flags) (s s' : S)
    (o : Outcome (option error)) (tr : Trace) (i : nat) (ev : Event)
    (err : error) :
  exec h (mainE CodeStart fl) s = (o, s', tr) ->
  tr !! i = Some ev ->
  abort_error i ev = Some err ->
  o = Done (Some err).
Proof. intros H. exact (mainE_fails_fast fl s s' o tr H i ev err). Qed.

End FailFast.

(** ** cmd/spicy/main.go: the shape of a run *)

Lemma wave_call_not_OsCreate (tr : Trace) :
  Forall (fun ev => call_is is_wave_call ev = true) tr ->
  Forall (fun ev => call_is is_OsCreate ev = false) tr.
Proof.
  intros Htr. eapply Forall_impl; [exact Htr |].
  intros [X e x]. destruct e; cbn; congruence.
Qed.

Lemma finalize_call_trace (tr : Trace) :
  Forall (fun ev => call_is is_finalize_call ev = true) tr ->
  units_started tr = [] /\ rom_writes tr = [] /\
  opened_paths tr = [] /\ wrapped_objects tr = [].
Proof.
  intros Htr. repeat split;
    (eapply omap_none_of_calls; [| exact Htr]);
    intros [X c x]; destruct c; cbn; congruence.
Qed.

Section RunShape.
Context {S : Type} (h : Handler S).
Variable CodeStart : Z.
Import Main.

Lemma mainE_finalize_issues (fl : Flags) (rom : RomFile) :
  issues_only is_finalize_call (mainE_finalize fl rom).
Proof.
  unfold mainE_finalize.
  destruct (decide (romsizeMbits fl > 0)); issues_walk.
Qed.

(** A run of the body of [mainE] either never reaches [os.Create], or it
    has built every unit and goes on with the finalization. *)
Lemma mainE_body_cases (fl : Flags) (f : File) (s s' : S)
    (o : Outcome (option error)) (tr : Trace) :
  exec h (mainE_body CodeStart fl f) s = (o, s', tr) ->
  Forall (fun ev => call_is is_OsCreate ev = false) tr \/
  exists (pre : Reader) (spec : Spec) (rom : RomFile) (s1 s2 : S)
         (tw tf : Trace),
    tr = [Ev (PreprocessSpec f (Run.NewRunner (getCommand fl (cppCommand fl) "gcc"))
                (includeFlags fl) (defineFlags fl) (undefineFlags fl)) (Ok pre);
          Ev (ParseSpec pre) (Ok spec);
          Ev (NewBlankRomFile (byte_of_int (filldata fl))) (Ok rom)]
         ++ tw ++ tf /\
    exec h (mainE_waves CodeStart rom
              (Run.NewRunner (getCommand fl (ldCommand fl) "ld"))
              (Run.NewRunner (getCommand fl (asCommand fl) "as"))
              (Run.NewRunner (getCommand fl (objcopyCommand fl) "objcopy"))
              (Waves spec)) s1 = (Done None, s2, tw) /\
    exec h (mainE_finalize fl rom) s2 = (o, s', tf).
Proof.
  unfold mainE_body. cbv zeta. intros H.
  exec_step H as p s4. destruct p as [pre | err];
    [| exec_done H; injection H as <- <- <-; left; repeat constructor].
  exec_step H as sp s5. destruct sp as [spec | err];
    [| exec_done H; injection H as <- <- <-; left; repeat constructor].
  exec_step H as r s6. destruct r as [rom | err];
    [| exec_done H; injection H as <- <- <-; left; repeat constructor].
  rewrite exec_bind in H.
  pose proof (issues_only_trace h is_wave_call _ s6
                (mainE_waves_issues CodeStart rom
                   (Run.NewRunner (getCommand fl (ldCommand fl) "ld"))
                   (Run.NewRunner (getCommand fl (asCommand fl) "as"))
                   (Run.NewRunner (getCommand fl (objcopyCommand fl) "objcopy"))
                   (Waves spec))) as Hcalls.
  destruct (exec h (mainE_waves CodeStart rom
              (Run.NewRunner (getCommand fl (ldCommand fl) "ld"))
              (Run.NewRunner (getCommand fl (asCommand fl) "as"))
              (Run.NewRunner (getCommand fl (objcopyCommand fl) "objcopy"))
              (Waves spec)) s6) as [[[e | msg] s8] t8] eqn:Hw.
  - destruct e as [err |].
    + exec_done H. injection H as <- <- <-. left.
      rewrite app_nil_r. repeat constructor. apply wave_call_not_OsCreate, Hcalls.
    + destruct (exec h (mainE_finalize fl rom) s8) as [[o9 s9] t9] eqn:Hfin.
      cbn iota beta in H. injection H as <- <- <-. right.
      exists pre, spec, rom, s6, s8, t8, t9. split; [reflexivity |].
      split; [exact Hw | exact Hfin].
  - cbn iota beta in H. injection H as <- <- <-. left.
    repeat constructor. apply wave_call_not_OsCreate, Hcalls.
Qed.

(** X12: with no positional argument, or with more than one, [mainE]
    returns the usage error at once: it makes no call at all. *)
Theorem mainE_checks_argument_count (fl : Flags) (s : S) :
  length (Args fl) <> 1%nat ->
  exec h (mainE CodeStart fl) s =
    (Done (Some (ErrorString
       (if decide (Args fl = [])
        then "missing argument: <spec>"
        else "invalid usage: got " +:+ pretty (Z.of_nat (length (Args fl)))
             +:+ " arguments, expected exactly 1"))), s, []).
Proof.
  intros Hlen. unfold mainE.
  destruct (Args fl) as [| arg0 [| arg1 more]] eqn:Hargs.
  - reflexivity.
  - destruct Hlen. reflexivity.
  - rewrite decide_False by discriminate. reflexivity.
Qed.

(** X13: when the spec file cannot be opened, [mainE] returns
    [could not open spec:] followed by the error of [os.Open], after
    setting the log level; it calls nothing else and closes nothing. *)
Theorem mainE_spec_not_opened (fl : Flags) (arg0 : string) (err : error)
    (s s2 : S) :
  Args fl = [arg0] ->
  h _ (OsOpen arg0)
      (h _ (LogSetLevel (if verbose fl then DebugLevel else WarnLevel)) s).2
    = (Err err, s2) ->
  exec h (mainE CodeStart fl) s =
    (Done (Some (ErrorString ("could not open spec: " +:+ Error err))), s2,
     [Ev (LogSetLevel (if verbose fl then DebugLevel else WarnLevel)) tt;
      Ev (OsOpen arg0) (Err err)]).
Proof.
  intros Hargs Hopen. unfold mainE. rewrite Hargs.
  rewrite exec_call_bind.
  destruct (h _ (LogSetLevel (if verbose fl then DebugLevel else WarnLevel)) s)
    as [[] s1].
  cbn [fst snd] in *. rewrite exec_call_bind, Hopen. cbn [fst snd].
  rewrite exec_ret. reflexivity.
Qed.

(** X14: once the spec file is open, every run of [mainE] returns, and its
    last call closes the spec file, on the failure paths as on success; the
    result of that [Close] is not looked at. *)
Theorem mainE_closes_spec_file (fl : Flags) (arg0 : string) (f : File)
    (s s2 : S) :
  Args fl = [arg0] ->
  h _ (OsOpen arg0)
      (h _ (LogSetLevel (if verbose fl then DebugLevel else WarnLevel)) s).2
    = (Ok f, s2) ->
  exists (res : option error) (s3 : S) (t : Trace),
    exec h (mainE_body CodeStart fl f) s2 = (Done res, s3, t) /\
    exec h (mainE CodeStart fl) s =
      (Done res, (h _ (FileClose f) s3).2,
       [Ev (LogSetLevel (if verbose fl then DebugLevel else WarnLevel)) tt;
        Ev (OsOpen arg0) (Ok f)]
       ++ t ++ [Ev (FileClose f) (h _ (FileClose f) s3).1]).
Proof.
  intros Hargs Hopen.
  destruct (never_panics_returns h _ s (mainE_never_panics CodeStart fl))
    as [r Hret].
  unfold mainE in *. rewrite Hargs in *.
  rewrite exec_call_bind in *.
  destruct (h _ (LogSetLevel (if verbose fl then DebugLevel else WarnLevel)) s)
    as [[] s1].
  cbn [fst snd] in *. rewrite exec_call_bind, Hopen in *. cbn [fst snd] in *.
  rewrite exec_bind in *.
  destruct (exec h (mainE_body CodeStart fl f) s2) as [[[res | msg] s3] t] eqn:Hbody.
  - exists res, s3, t. split; [reflexivity |].
    rewrite exec_call_bind, exec_ret. reflexivity.
  - cbn in Hret. discriminate.
Qed.

(** X16: [mainE] creates the output file only after every build unit of
    the spec has been built and written into the ROM image: a run that
    calls [os.Create] has started all the units, in order, and made one
    write into the image for each. *)
Theorem mainE_creates_output_after_all_units (fl : Flags) (s s' : S)
    (o : Outcome (option error)) (tr : Trace) (ev : Event) :
  exec h (mainE CodeStart fl) s = (o, s', tr) ->
  ev ∈ tr ->
  call_is is_OsCreate ev = true ->
  exists (pre : Reader) (spec : Spec),
    Ev (ParseSpec pre) (Ok spec) ∈ tr /\
    units_started tr = Waves spec /\
    length (rom_writes tr) = length (Waves spec).
Proof.
  unfold mainE. intros H Hin Hev.
  assert (Hnone : forall t : Trace,
            Forall (fun ev => call_is is_OsCreate ev = false) t -> ev ∈ t -> False).
  { intros t Ht Hin'. rewrite Forall_forall in Ht. specialize (Ht ev Hin').
    congruence. }
  destruct (Args fl) as [| arg0 [| arg1 more]];
    [exec_done H; injection H as <- <- <-; inversion Hin | |
     exec_done H; injection H as <- <- <-; inversion Hin].
  exec_step H as u s0. destruct u.
  exec_step H as op s1. destruct op as [f | err].
  2: { exec_done H. injection H as <- <- <-. exfalso.
       eapply Hnone; [| exact Hin]. repeat constructor. }
  rewrite exec_bind in H.
  destruct (exec h (mainE_body CodeStart fl f) s1) as [[ob s2] tb] eqn:Hbody.
  assert (Htr : exists cl : Trace,
            tr = [Ev (LogSetLevel (if verbose fl then DebugLevel else WarnLevel)) tt;
                  Ev (OsOpen arg0) (Ok f)] ++ tb ++ cl /\
            Forall (fun ev => call_is is_finalize_call ev = true) cl /\
            Forall (fun ev => call_is is_OsCreate ev = false) cl).
  { destruct ob as [res | msg].
    - exec_step H as c s3. exec_done H. injection H as <- <- <-.
      eexists [_]. split; [reflexivity |]. split; repeat constructor.
    - cbn iota beta in H. injection H as <- <- <-.
      exists []. rewrite app_nil_r. split; [reflexivity |]. split; constructor. }
  destruct Htr as (cl & -> & Hcl & Hclc). clear H.
  apply mainE_body_cases in Hbody
    as [Hno | (pre & spec & rom & s3 & s4 & tw & tf & -> & Hw & Hf)].
  - exfalso. eapply Hnone; [| exact Hin].
    cbn [app]. repeat constructor. apply Forall_app. split; assumption.
  - apply mainE_waves_done in Hw as (Hu & Ho & Hr).
    pose proof (issues_only_trace h is_finalize_call _ s4
                  (mainE_finalize_issues fl rom)) as Hfc.
    rewrite Hf in Hfc. cbn [snd] in Hfc.
    destruct (finalize_call_trace _ Hfc) as (Hfu & Hfr & _ & _).
    destruct (finalize_call_trace _ Hcl) as (Hcu & Hcr & _ & _).
    exists pre, spec.
    split; [cbn; rewrite !elem_of_cons; auto 10 |].
    unfold units_started, rom_writes in *.
    rewrite !omap_app, Hfu, Hcu, Hfr, Hcr, Hu, Hr. cbn.
    rewrite !app_nil_r, length_fmap. split; [reflexivity | exact Ho].
Qed.

Lemma mainE_includes_opened (ld : ExecRunner) (includes : list string) :
  forall (s s' : S) (tr : Trace),
    exec h (mainE_includes ld includes) s = (Done None, s', tr) ->
    opened_paths tr = includes /\
    wrapped_objects tr = (fun i => (i +:+ ".o", ld)) <$> includes.
Proof.
  induction includes as [| include rest IH]; intros s s' tr H;
    cbn [mainE_includes] in H.
  - exec_done H. injection H as <- <-. split; reflexivity.
  - exec_step H as o s1. destruct o as [f | err]; [| exec_done H; discriminate].
    exec_step H as w s2.
    destruct (exec h (mainE_includes ld rest) s2) as [[o3 s3] t3] eqn:Hrest.
    injection H as -> <- <-.
    apply IH in Hrest as (Hop & Hwr).
    unfold opened_paths, wrapped_objects in *. cbn. rewrite Hop, Hwr.
    split; reflexivity.
Qed.

Lemma mainE_segments_opened (ld : ExecRunner) (segs : list Segment) :
  forall (s s' : S) (tr : Trace),
    exec h (mainE_segments ld segs) s = (Done None, s', tr) ->
    opened_paths tr = concat (Includes <$> segs) /\
    wrapped_objects tr = (fun i => (i +:+ ".o", ld)) <$> concat (Includes <$> segs).
Proof.
  induction segs as [| seg rest IH]; intros s s' tr H;
    cbn [mainE_segments] in H.
  - exec_done H. injection H as <- <-. split; reflexivity.
  - apply exec_bind_done in H as (e & s1 & t1 & t2 & Hinc & H & ->).
    destruct e as [err |]; [exec_done H; discriminate |].
    apply mainE_includes_opened in Hinc as (Hop1 & Hwr1).
    apply IH in H as (Hop2 & Hwr2).
    unfold opened_paths, wrapped_objects in *.
    rewrite !omap_app, Hop1, Hop2, Hwr1, Hwr2. cbn. rewrite fmap_app.
    split; reflexivity.
Qed.

Lemma mainE_waves_opened (rom : RomFile) (ld as_ objcopy : ExecRunner)
    (waves : list Wave) :
  forall (s s' : S) (tr : Trace),
    exec h (mainE_waves CodeStart rom ld as_ objcopy waves) s = (Done None, s', tr) ->
    opened_paths tr = concat (wave_includes <$> waves) /\
    wrapped_objects tr
      = (fun i => (i +:+ ".o", ld)) <$> concat (wave_includes <$> waves).
Proof.
  induction waves as [| w rest IH]; intros s s' tr H; cbn [mainE_waves] in H.
  - exec_done H. injection H as <- <-. split; reflexivity.
  - apply exec_bind_done in H as (e & s1 & t1 & t2 & Hw & H & ->).
    destruct e as [err |]; [exec_done H; discriminate |].
    apply IH in H as (Hop2 & Hwr2).
    unfold mainE_wave in Hw.
    apply exec_bind_done in Hw as (e & s3 & t3 & t4 & Hseg & Hw & ->).
    destruct e as [err |]; [exec_done Hw; discriminate |].
    apply mainE_segments_opened in Hseg as (Hop1 & Hwr1).
    exec_step Hw as en s4. destruct en as [entry | err]; [| exec_done Hw; discriminate].
    exec_step Hw as l s5. destruct l as [linked | err]; [| exec_done Hw; discriminate].
    exec_step Hw as b s6. destruct b as [bin | err]; [| exec_done Hw; discriminate].
    exec_step Hw as rd s7. destruct rd as [bytes | err]; [| exec_done Hw; discriminate].
    cbv zeta in Hw. exec_step Hw as wr s8. exec_done Hw. injection Hw as <- <-.
    unfold opened_paths, wrapped_objects, wave_includes in *.
    rewrite !omap_app, Hop1, Hop2, Hwr1, Hwr2. cbn.
    rewrite !app_nil_r, fmap_app. split; reflexivity.
Qed.

Lemma include_calls_includes_run (ld : ExecRunner)
    (opened : list (string * File * result Reader)) :
  include_calls (includes_run ld opened) = includes_run ld opened.
Proof.
  induction opened as [| o rest IH]; [reflexivity |].
  unfold includes_run, include_calls in *. cbn. rewrite IH. reflexivity.
Qed.

Lemma mainE_includes_run (ld : ExecRunner) (includes : list string) :
  forall (s s' : S) (tr : Trace),
    exec h (mainE_includes ld includes) s = (Done None, s', tr) ->
    exists opened : list (string * File * result Reader),
      opened.*1.*1 = includes /\ tr = includes_run ld opened.
Proof.
  induction includes as [| include rest IH]; intros s s' tr H;
    cbn [mainE_includes] in H.
  - exec_done H. injection H as <- <-. exists []. split; reflexivity.
  - exec_step H as o s1. destruct o as [f | err]; [| exec_done H; discriminate].
    exec_step H as w s2.
    destruct (exec h (mainE_includes ld rest) s2) as [[o3 s3] t3] eqn:Hrest.
    injection H as -> <- <-.
    apply IH in Hrest as (opened & Hn & ->).
    exists ((include, f, w) :: opened). split; [cbn; rewrite Hn |]; reflexivity.
Qed.

Lemma mainE_segments_run (ld : ExecRunner) (segs : list Segment) :
  forall (s s' : S) (tr : Trace),
    exec h (mainE_segments ld segs) s = (Done None, s', tr) ->
    exists opened : list (string * File * result Reader),
      opened.*1.*1 = concat (Includes <$> segs) /\ tr = includes_run ld opened.
Proof.
  induction segs as [| seg rest IH]; intros s s' tr H;
    cbn [mainE_segments] in H.
  - exec_done H. injection H as <- <-. exists []. split; reflexivity.
  - apply exec_bind_done in H as (e & s1 & t1 & t2 & Hinc & H & ->).
    destruct e as [err |]; [exec_done H; discriminate |].
    apply mainE_includes_run in Hinc as (op1 & Hn1 & ->).
    apply IH in H as (op2 & Hn2 & ->).
    exists (op1 ++ op2). unfold includes_run.
    rewrite !fmap_app, concat_app, Hn1, Hn2. split; reflexivity.
Qed.

Lemma mainE_waves_include_calls (rom : RomFile) (ld as_ objcopy : ExecRunner)
    (waves : list Wave) :
  forall (s s' : S) (tr : Trace),
    exec h (mainE_waves CodeStart rom ld as_ objcopy waves) s = (Done None, s', tr) ->
    exists opened : list (string * File * result Reader),
      opened.*1.*1 = concat (wave_includes <$> waves) /\
      include_calls tr = includes_run ld opened.
Proof.
  induction waves as [| w rest IH]; intros s s' tr H; cbn [mainE_waves] in H.
  - exec_done H. injection H as <- <-. exists []. split; reflexivity.
  - apply exec_bind_done in H as (e & s1 & t1 & t2 & Hw & H & ->).
    destruct e as [err |]; [exec_done H; discriminate |].
    apply IH in H as (op2 & Hn2 & Hc2).
    unfold mainE_wave in Hw.
    apply exec_bind_done in Hw as (e & s3 & t3 & t4 & Hseg & Hw & ->).
    destruct e as [err |]; [exec_done Hw; discriminate |].
    apply mainE_segments_run in Hseg as (op1 & Hn1 & ->).
    exec_step Hw as en s4. destruct en as [entry | err]; [| exec_done Hw; discriminate].
    exec_step Hw as l s5. destruct l as [linked | err]; [| exec_done Hw; discriminate].
    exec_step Hw as b s6. destruct b as [bin | err]; [| exec_done Hw; discriminate].
    exec_step Hw as rd s7. destruct rd as [bytes | err]; [| exec_done Hw; discriminate].
    cbv zeta in Hw. exec_step Hw as wr s8. exec_done Hw. injection Hw as <- <-.
    exists (op1 ++ op2). split.
    + unfold wave_includes in *. rewrite !fmap_app, Hn1, Hn2. reflexivity.
    + unfold include_calls in *. rewrite !omap_app, Hc2.
      fold (include_calls (includes_run ld op1)).
      rewrite include_calls_includes_run. cbn.
      unfold includes_run. rewrite fmap_app, concat_app, !app_nil_r. reflexivity.
Qed.

(** X18: in a run of [mainE] that ends without error, the calls to
    [os.Open] and [CreateRawObjectWrapper] are: [os.Open] on the spec
    file; then, for every include file of every raw segment of every build
    unit, in the order of the spec, [os.Open] on the include file followed
    by [CreateRawObjectWrapper] on the file that this very [os.Open]
    returned, under the name of the include file followed by [.o], with
    the runner of the linker. *)
Theorem mainE_wraps_every_include (fl : Flags) (s s' : S) (tr : Trace) :
  exec h (mainE CodeStart fl) s = (Done None, s', tr) ->
  exists (arg0 : string) (specf : File) (pre : Reader) (spec : Spec)
         (opened : list (string * File * result Reader)),
    Args fl = [arg0] /\
    Ev (ParseSpec pre) (Ok spec) ∈ tr /\
    opened.*1.*1 = all_includes spec /\
    include_calls tr
      = Ev (OsOpen arg0) (Ok specf)
        :: includes_run (Run.NewRunner (getCommand fl (ldCommand fl) "ld")) opened /\
    opened_paths tr = arg0 :: all_includes spec /\
    wrapped_objects tr =
      (fun i => (i +:+ ".o",
                 Run.NewRunner (getCommand fl (ldCommand fl) "ld")))
      <$> all_includes spec.
Proof.
  intros H.
  apply mainE_done in H
    as (arg0 & f & pre & spec & rom & cl & s1 & s2 & s3 & tw & tf & Hargs & -> & Hw & Hf).
  pose proof (mainE_waves_include_calls _ _ _ _ _ _ _ _ Hw) as (opened & Hn & Hc).
  apply mainE_waves_opened in Hw as (Hop & Hwr).
  pose proof (issues_only_trace h is_finalize_call _ s2
                (mainE_finalize_issues fl rom)) as Hfc.
  rewrite Hf in Hfc. cbn [snd] in Hfc.
  destruct (finalize_call_trace _ Hfc) as (_ & _ & Hfo & Hfw).
  assert (Hfi : include_calls tf = []).
  { eapply omap_none_of_calls; [| exact Hfc].
    intros [X c x]. destruct c; cbn; congruence. }
  exists arg0, f, pre, spec, opened. split; [exact Hargs |].
  split; [rewrite !elem_of_app, !elem_of_cons; auto 10 |].
  split; [exact Hn |].
  unfold opened_paths, wrapped_objects, include_calls, all_includes in *.
  rewrite !omap_app, Hop, Hwr, Hfo, Hfw, Hc, Hfi. cbn. rewrite !app_nil_r.
  repeat split; reflexivity.
Qed.

Lemma mainE_waves_toolchain (fl : Flags) (rom : RomFile) (waves : list Wave) :
  issues_only (uses_toolchain fl)
    (mainE_waves CodeStart rom
       (Run.NewRunner (getCommand fl (ldCommand fl) "ld"))
       (Run.NewRunner (getCommand fl (asCommand fl) "as"))
       (Run.NewRunner (getCommand fl (objcopyCommand fl) "objcopy"))
       waves).
Proof.
  assert (Hinc : forall includes,
            issues_only (uses_toolchain fl)
              (mainE_includes (Run.NewRunner (getCommand fl (ldCommand fl) "ld"))
                 includes)).
  { induction includes as [| include rest IH]; cbn [mainE_includes]; [exact I |].
    apply issues_only_bind; [apply issues_only_call; reflexivity |].
    intros [f | err]; [| exact I].
    apply issues_only_bind; [| intros _; exact IH].
    apply issues_only_call. apply bool_decide_eq_true_2. reflexivity. }
  assert (Hseg : forall segs,
            issues_only (uses_toolchain fl)
              (mainE_segments (Run.NewRunner (getCommand fl (ldCommand fl) "ld"))
                 segs)).
  { induction segs as [| seg rest IH]; cbn [mainE_segments]; [exact I |].
    apply issues_only_bind; [apply Hinc |].
    intros [err |]; [exact I | exact IH]. }
  induction waves as [| w rest IH]; cbn [mainE_waves]; [exact I |].
  apply issues_only_bind; [| intros [err |]; [exact I | exact IH]].
  unfold mainE_wave. apply issues_only_bind; [apply Hseg |].
  intros e. cbv zeta.
  repeat first
    [ exact I
    | apply issues_only_call;
        first [reflexivity | apply bool_decide_eq_true_2; reflexivity]
    | apply issues_only_bind; [| intros ?]
    | match goal with
      | |- issues_only _ (match ?x with _ => _ end) => destruct x
      end ].
Qed.

(** X20: in every run of [mainE] each collaborator is handed the runner of
    its own tool: the preprocessor gets [gcc] and the [-I], [-D] and [-U]
    lists in this order, the object wrapper and the linker get [ld], the
    entry binary gets [as] and the binarizer gets [objcopy]; the command of
    a tool is its flag when that is not empty, and the toolchain prefix
    followed by the name of the tool otherwise. *)
Theorem mainE_hands_over_toolchain (fl : Flags) (s : S) :
  Forall (fun ev => call_is (uses_toolchain fl) ev = true)
         (exec h (mainE CodeStart fl) s).2.
Proof.
  apply issues_only_trace. unfold mainE.
  destruct (Args fl) as [| arg0 [| arg1 more]]; [exact I | | exact I].
  unfold mainE_body, mainE_finalize. cbv zeta.
  repeat first
    [ exact I
    | apply mainE_waves_toolchain
    | apply issues_only_call;
        first [reflexivity
              | cbn; rewrite !bool_decide_eq_true_2 by reflexivity; reflexivity]
    | apply issues_only_bind; [| intros ?]
    | match goal with
      | |- issues_only _ (match ?x with _ => _ end) => destruct x
      | |- issues_only _ (if ?x then _ else _) => destruct x
      end ].
Qed.

End RunShape.

(** ** Instances *)

Import Run Main Sim.

(** An instance: no command line can be quoted. *)
Lemma ExecRunner_Run_unquotable_panics_witness :
  exists s1 : nat,
    sim unquotable _ (ShellquoteCommand (command (NewRunner "ld") :: ["-o"])) 0%nat
      = (Err (ForeignError "cannot quote argument"), s1) /\
    exists (s' : nat) (tr : Trace),
      exec (sim unquotable) (Run (NewRunner "ld") NilReader ["-o"]) 0%nat
        = (Panicked ("shellquote.Command:" +:+ Error (ForeignError "cannot quote argument")),
           s', tr) /\
      tr = [Ev (ShellquoteCommand (command (NewRunner "ld") :: ["-o"]))
               (Err (ForeignError "cannot quote argument"));
            Ev (LogMsg PanicLevel
                  ["shellquote.Command:"; Error (ForeignError "cannot quote argument")]) tt] /\
      Forall (fun ev => call_is is_CmdRun ev = false) tr.
Proof.
  eexists. split; [reflexivity |].
  refine (ExecRunner_Run_unquotable_panics (sim unquotable) (NewRunner "ld")
            NilReader ["-o"] 0%nat _ _ _).
  reflexivity.
Defined.

(** An instance: [ld -o] in an environment where every call succeeds. *)
Lemma ExecRunner_Run_runs_command_once_witness :
  exists (res : result Reader) (s' : nat) (tr : Trace),
    exec (sim quiet_world) (Run (NewRunner "ld") NilReader ["-o"]) 0%nat
      = (Done res, s', tr) /\
    exists (text : string) (reply : list byte * list byte * option error),
      tr = [Ev (ShellquoteCommand (command (NewRunner "ld") :: ["-o"])) (Ok text);
            Ev (LogMsg InfoLevel ["Running"; text]) tt;
            Ev (CmdRun (command (NewRunner "ld")) ["-o"] NilReader) reply;
            Ev (LogMsg DebugLevel ["stdout: "; string_of_list_byte reply.1.1]) tt] /\
      omap cmd_reply_of tr = [(command (NewRunner "ld"), ["-o"], NilReader, reply)].
Proof.
  eexists _, _, _. split; [reflexivity |].
  refine (ExecRunner_Run_runs_command_once (sim quiet_world) (NewRunner "ld")
            NilReader ["-o"] 0%nat _ _ _ _).
  reflexivity.
Defined.

(** An instance: [objcopy] exits with status 3. *)
Lemma OutputFileRunner_Run_inner_failure_witness :
  exists (s1 : nat) (t1 : Trace),
    (exec (sim failing_cmd) (Run (ofr_runner objcopy_to_file) NilReader ["a.out"]) 0%nat
       = (Done (Err (ErrorString "Error running 'objcopy': exit status 3: boom")), s1, t1) /\
     forall v : Reader,
       Done (Err (ErrorString "Error running 'objcopy': exit status 3: boom"))
         <> Done (Ok v)) /\
    exec (sim failing_cmd) (Run objcopy_to_file NilReader ["a.out"]) 0%nat
      = (Done (Err (ErrorString "Error running 'objcopy': exit status 3: boom")), s1, t1).
Proof.
  eexists _, _.
  split; [split; [reflexivity | intros v; discriminate] |].
  refine (OutputFileRunner_Run_inner_failure (sim failing_cmd) objcopy_to_file
            NilReader ["a.out"] _ 0%nat _ _ _ _);
    [reflexivity | intros v; discriminate].
Defined.

(** An instance: [objcopy] succeeds and leaves no [out.bin]. *)
Lemma OutputFileRunner_over_ExecRunner_witness :
  exists (res : result Reader) (s' : nat) (tr : Trace),
    exec (sim missing_output)
         (Run (NewOutputFileRunner (NewRunner "objcopy") "out.bin") NilReader ["a.out"])
         0%nat
      = (Done res, s', tr) /\
    exists (out errout : list byte) (oerr : option error),
      omap cmd_reply_of tr = [("objcopy", ["a.out"], NilReader, (out, errout, oerr))] /\
      match oerr with
      | Some err =>
          res = Err (ErrorString
                  ("Error running '" +:+ "objcopy" +:+ "': " +:+ Error err +:+ ": "
                   +:+ string_of_list_byte errout)) /\
          Forall (fun ev => call_is is_OsOpen ev = false) tr
      | None =>
          exists opened : result File,
            last tr = Some (Ev (OsOpen "out.bin") opened) /\
            res = match opened with
                  | Ok f => Ok (FileReader f)
                  | Err err => Err err
                  end
      end.
Proof.
  eexists _, _, _. split; [reflexivity |].
  refine (OutputFileRunner_over_ExecRunner (sim missing_output) "objcopy" "out.bin"
            NilReader ["a.out"] 0%nat _ _ _ _).
  reflexivity.
Defined.

(** An instance: a temporary file for the prefix [in]. *)
Lemma writeTempFile_success_witness :
  exists (s' : nat) (tr : Trace),
    exec (sim quiet_world) (writeTempFile (BufferReader [x01]) "in") 0%nat
      = (Done (Ok "/tmp/in0"), s', tr) /\
    exists (f : File) (n : Z),
      omap tempfile_of tr = [("in", f)] /\
      Ev (IoutilTempFile EmptyString "in") (Ok f) ∈ tr /\
      Ev (FilepathAbs (Name f)) (Ok "/tmp/in0") ∈ tr /\
      Ev (IoCopy f (BufferReader [x01])) (Ok n) ∈ tr /\
      last tr = Some (Ev (FileClose f) None) /\
      open_files tr = [].
Proof.
  eexists _, _. split; [reflexivity |].
  refine (writeTempFile_success (sim quiet_world) (BufferReader [x01]) "in"
            "/tmp/in0" 0%nat _ _ _).
  reflexivity.
Defined.

(** An instance: the copy into the temporary file fails. *)
Lemma writeTempFile_returns_first_failure_witness :
  exists (s' : nat) (tr : Trace),
    exec (sim failing_copy) (writeTempFile (BufferReader [x01]) "in") 0%nat
      = (Done (Err (ForeignError "unexpected EOF")), s', tr) /\
    exists (t0 : Trace) (ev : Event),
      tr = t0 ++ [ev] /\
      reply_error_of ev = Some (ForeignError "unexpected EOF") /\
      Forall (fun ev' => reply_error_of ev' = None) t0.
Proof.
  eexists _, _. split; [reflexivity |].
  refine (writeTempFile_returns_first_failure (sim failing_copy)
            (BufferReader [x01]) "in" (ForeignError "unexpected EOF") 0%nat _ _ _).
  reflexivity.
Defined.

(** An instance: the arguments [-o x] hold no key of the mapping. *)
Lemma MappedFileRunner_Run_no_keys_witness :
  exists (s1 : nat) (t1 : Trace),
    ((forall a, a ∈ ["-o"; "x"] -> inputFileArgs ld_mapped !! a = None) /\
     exec (sim quiet_world) (Run (mfr_runner ld_mapped) NilReader ["-o"; "x"]) 0%nat
       = (Done (Ok (BufferReader [])), s1, t1)) /\
    exec (sim quiet_world)
         (stageArgs (inputFileArgs ld_mapped) 0 ["-o"; "x"]
            (replicate (length ["-o"; "x"]) EmptyString)) 0%nat
      = (Done (Ok ["-o"; "x"]), 0%nat, []) /\
    exec (sim quiet_world) (Run ld_mapped NilReader ["-o"; "x"]) 0%nat =
      (Done match (sim quiet_world _ (IoutilReadFile (outputFileArg ld_mapped)) s1).1 with
            | Ok b => Ok (BufferReader b)
            | Err err => Err err
            end,
       (sim quiet_world _ (IoutilReadFile (outputFileArg ld_mapped)) s1).2,
       t1 ++ [Ev (IoutilReadFile (outputFileArg ld_mapped))
                 (sim quiet_world _ (IoutilReadFile (outputFileArg ld_mapped)) s1).1]).
Proof.
  assert (Hno : forall a, a ∈ ["-o"; "x"] -> inputFileArgs ld_mapped !! a = None).
  { intros a Ha.
    apply elem_of_cons in Ha as [-> | Ha]; [reflexivity |].
    apply elem_of_cons in Ha as [-> | Ha]; [reflexivity | inversion Ha]. }
  assert (Hinner :
    exec (sim quiet_world) (Run (mfr_runner ld_mapped) NilReader ["-o"; "x"]) 0%nat
    = (Done (Ok (BufferReader [])), _, _)) by reflexivity.
  eexists _, _. split; [split; [exact Hno | exact Hinner] |].
  exact (MappedFileRunner_Run_no_keys (sim quiet_world) ld_mapped NilReader
           ["-o"; "x"] _ 0%nat _ _ Hno Hinner).
Defined.

(** An instance: [ld -o in] with [ld] exiting with status 3. *)
Lemma MappedFileRunner_Run_inner_failure_witness :
  exists (s1 s2 : nat) (t1 t2 : Trace),
    (exec (sim failing_cmd)
          (stageArgs (inputFileArgs ld_mapped) 0 ["-o"; "in"]
             (replicate (length ["-o"; "in"]) EmptyString)) 0%nat
       = (Done (Ok ["-o"; "/tmp/in0"]), s1, t1) /\
     exec (sim failing_cmd) (Run (mfr_runner ld_mapped) NilReader ["-o"; "/tmp/in0"]) s1
       = (Done (Err (ErrorString "Error running 'ld': exit status 3: boom")), s2, t2) /\
     forall v : Reader,
       Done (Err (ErrorString "Error running 'ld': exit status 3: boom"))
         <> Done (Ok v)) /\
    exec (sim failing_cmd) (Run ld_mapped NilReader ["-o"; "in"]) 0%nat
      = (Done (Err (ErrorString "Error running 'ld': exit status 3: boom")), s2, t1 ++ t2).
Proof.
  eexists _, _, _, _.
  split; [split; [reflexivity | split; [reflexivity | intros v; discriminate]] |].
  refine (MappedFileRunner_Run_inner_failure (sim failing_cmd) ld_mapped NilReader
            ["-o"; "in"] ["-o"; "/tmp/in0"] _ 0%nat _ _ _ _ _ _ _);
    [reflexivity | reflexivity | intros v; discriminate].
Defined.

(** An instance: [ld -o in] succeeds and [out.bin] is read. *)
Lemma MappedFileRunner_Run_reads_output_witness :
  exists (v : Reader) (s1 s2 : nat) (t1 t2 : Trace),
    (exec (sim quiet_world)
          (stageArgs (inputFileArgs ld_mapped) 0 ["-o"; "in"]
             (replicate (length ["-o"; "in"]) EmptyString)) 0%nat
       = (Done (Ok ["-o"; "/tmp/in0"]), s1, t1) /\
     exec (sim quiet_world) (Run (mfr_runner ld_mapped) NilReader ["-o"; "/tmp/in0"]) s1
       = (Done (Ok v), s2, t2)) /\
    exec (sim quiet_world) (Run ld_mapped NilReader ["-o"; "in"]) 0%nat =
      (Done match (sim quiet_world _ (IoutilReadFile (outputFileArg ld_mapped)) s2).1 with
            | Ok b => Ok (BufferReader b)
            | Err err => Err err
            end,
       (sim quiet_world _ (IoutilReadFile (outputFileArg ld_mapped)) s2).2,
       t1 ++ t2 ++ [Ev (IoutilReadFile (outputFileArg ld_mapped))
                       (sim quiet_world _ (IoutilReadFile (outputFileArg ld_mapped)) s2).1]).
Proof.
  eexists _, _, _, _, _.
  split; [split; reflexivity |].
  refine (MappedFileRunner_Run_reads_output (sim quiet_world) ld_mapped NilReader
            ["-o"; "in"] ["-o"; "/tmp/in0"] _ 0%nat _ _ _ _ _ _);
    reflexivity.
Defined.

(** An instance: [in] occurs twice in [in -o in]. *)
Lemma MappedFileRunner_Run_stages_in_order_witness :
  exists (newArgs : list string) (s' : nat) (tr : Trace),
    exec (sim quiet_world)
         (stageArgs (inputFileArgs ld_mapped) 0 ["in"; "-o"; "in"]
            (replicate (length ["in"; "-o"; "in"]) EmptyString)) 0%nat
      = (Done (Ok newArgs), s', tr) /\
    tempfile_prefixes tr = key_tokens (inputFileArgs ld_mapped) ["in"; "-o"; "in"].
Proof.
  eexists _, _, _. split; [reflexivity |].
  refine (MappedFileRunner_Run_stages_in_order (sim quiet_world) ld_mapped
            ["in"; "-o"; "in"] _ 0%nat _ _ _).
  reflexivity.
Defined.

(** An instance: two temporary files, both closed before [ld] runs. *)
Lemma MappedFileRunner_Run_closes_staged_files_witness :
  exists (newArgs : list string) (s' : nat) (tr : Trace),
    exec (sim quiet_world)
         (stageArgs (inputFileArgs ld_mapped) 0 ["in"; "-o"; "in"]
            (replicate (length ["in"; "-o"; "in"]) EmptyString)) 0%nat
      = (Done (Ok newArgs), s', tr) /\
    open_files tr = [] /\
    exec (sim quiet_world) (Run ld_mapped NilReader ["in"; "-o"; "in"]) 0%nat =
      (let '(o, s2, t2) := exec (sim quiet_world) (runStaged ld_mapped NilReader newArgs) s'
       in (o, s2, tr ++ t2)).
Proof.
  eexists _, _, _. split; [reflexivity |].
  refine (MappedFileRunner_Run_closes_staged_files (sim quiet_world) ld_mapped
            NilReader ["in"; "-o"; "in"] _ 0%nat _ _ _).
  reflexivity.
Defined.

(** An instance: no positional argument. *)
Lemma mainE_checks_argument_count_witness :
  length (Args (flags_args [])) <> 1%nat /\
  exec (sim quiet_world) (mainE 4096 (flags_args [])) 0%nat =
    (Done (Some (ErrorString
       (if decide (Args (flags_args []) = [])
        then "missing argument: <spec>"
        else "invalid usage: got "
             +:+ pretty (Z.of_nat (length (Args (flags_args []))))
             +:+ " arguments, expected exactly 1"))), 0%nat, []).
Proof.
  assert (Hlen : length (Args (flags_args [])) <> 1%nat) by discriminate.
  split; [exact Hlen |].
  exact (mainE_checks_argument_count (sim quiet_world) 4096 (flags_args []) 0%nat Hlen).
Defined.

(** An instance: the spec file does not exist. *)
Lemma mainE_spec_not_opened_witness :
  exists s2 : nat,
    (Args (flags 8 0) = ["spec"] /\
     sim missing_spec _ (OsOpen "spec")
         (sim missing_spec _
            (LogSetLevel (if verbose (flags 8 0) then DebugLevel else WarnLevel)) 0%nat).2
       = (Err (PathError "open" "spec" "no such file or directory"), s2)) /\
    exec (sim missing_spec) (mainE 4096 (flags 8 0)) 0%nat =
      (Done (Some (ErrorString
         ("could not open spec: "
          +:+ Error (PathError "open" "spec" "no such file or directory")))), s2,
       [Ev (LogSetLevel (if verbose (flags 8 0) then DebugLevel else WarnLevel)) tt;
        Ev (OsOpen "spec") (Err (PathError "open" "spec" "no such file or directory"))]).
Proof.
  eexists. split; [split; reflexivity |].
  refine (mainE_spec_not_opened (sim missing_spec) 4096 (flags 8 0) "spec"
            (PathError "open" "spec" "no such file or directory") 0%nat _ _ _);
    reflexivity.
Defined.

(** An instance: an include file is missing; the spec file is closed all
    the same. *)
Lemma mainE_closes_spec_file_witness :
  exists s2 : nat,
    (Args (flags 8 0) = ["spec"] /\
     sim missing_include _ (OsOpen "spec")
         (sim missing_include _
            (LogSetLevel (if verbose (flags 8 0) then DebugLevel else WarnLevel)) 0%nat).2
       = (Ok (mkFile 0 "spec"), s2)) /\
    exists (res : option error) (s3 : nat) (t : Trace),
      exec (sim missing_include) (mainE_body 4096 (flags 8 0) (mkFile 0 "spec")) s2
        = (Done res, s3, t) /\
      exec (sim missing_include) (mainE 4096 (flags 8 0)) 0%nat =
        (Done res, (sim missing_include _ (FileClose (mkFile 0 "spec")) s3).2,
         [Ev (LogSetLevel (if verbose (flags 8 0) then DebugLevel else WarnLevel)) tt;
          Ev (OsOpen "spec") (Ok (mkFile 0 "spec"))]
         ++ t ++ [Ev (FileClose (mkFile 0 "spec"))
                     (sim missing_include _ (FileClose (mkFile 0 "spec")) s3).1]).
Proof.
  eexists. split; [split; reflexivity |].
  refine (mainE_closes_spec_file (sim missing_include) 4096 (flags 8 0) "spec"
            (mkFile 0 "spec") 0%nat _ _ _);
    reflexivity.
Defined.

(** An instance: the include file [a.bin] of the first unit is missing;
    the failing [os.Open] is the sixth call of the run. *)
Lemma mainE_returns_error_of_failed_call_witness :
  exists (o : Outcome (option error)) (s' : nat) (tr : Trace),
    (exec (sim missing_include) (mainE 4096 (flags 8 0)) 0%nat = (o, s', tr) /\
     tr !! 5%nat
       = Some (Ev (OsOpen "a.bin")
                  (Err (PathError "open" "a.bin" "no such file or directory"))) /\
     abort_error 5
       (Ev (OsOpen "a.bin") (Err (PathError "open" "a.bin" "no such file or directory")))
       = Some (ErrorString
                 "could not open include: open a.bin: no such file or directory")) /\
    o = Done (Some (ErrorString
                      "could not open include: open a.bin: no such file or directory")).
Proof.
  assert (Hrun : exec (sim missing_include) (mainE 4096 (flags 8 0)) 0%nat
            = (Done (Some (ErrorString
                 "could not open include: open a.bin: no such file or directory")),
               _, _)) by reflexivity.
  assert (Hab : abort_error 5
            (Ev (OsOpen "a.bin") (Err (PathError "open" "a.bin" "no such file or directory")))
            = Some (ErrorString
                      "could not open include: open a.bin: no such file or directory"))
    by reflexivity.
  eexists _, _, _. split.
  - split; [exact Hrun |]. split; [reflexivity | exact Hab].
  - exact (mainE_returns_error_of_failed_call (sim missing_include) 4096 (flags 8 0)
             0%nat _ _ _ 5%nat _ _ Hrun eq_refl Hab).
Defined.

(** An instance: a run of two units that creates [rom.n64]. *)
Lemma mainE_creates_output_after_all_units_witness :
  exists (o : Outcome (option error)) (s' : nat) (tr : Trace),
    (exec (sim quiet_world) (mainE 4096 (flags 8 0)) 0%nat = (o, s', tr) /\
     Ev (OsCreate "rom.n64") (Ok (mkFile 2 "rom.n64")) ∈ tr /\
     call_is is_OsCreate (Ev (OsCreate "rom.n64") (Ok (mkFile 2 "rom.n64"))) = true) /\
    exists (pre : Reader) (spec : Spec),
      Ev (ParseSpec pre) (Ok spec) ∈ tr /\
      units_started tr = Waves spec /\
      length (rom_writes tr) = length (Waves spec).
Proof.
  assert (Hrun : exec (sim quiet_world) (mainE 4096 (flags 8 0)) 0%nat
            = (Done None, _, _)) by reflexivity.
  eexists _, _, _. split.
  - split; [exact Hrun |]. split; [| reflexivity].
    repeat first [apply list_elem_of_here | apply list_elem_of_further].
  - refine (mainE_creates_output_after_all_units (sim quiet_world) 4096 (flags 8 0)
              0%nat _ _ _ (Ev (OsCreate "rom.n64") (Ok (mkFile 2 "rom.n64")))
              Hrun _ eq_refl).
    repeat first [apply list_elem_of_here | apply list_elem_of_further].
Defined.

(** An instance: the first unit includes [a.bin]. *)
Lemma mainE_wraps_every_include_witness :
  exists (s' : nat) (tr : Trace),
    exec (sim quiet_world) (mainE 4096 (flags 8 0)) 0%nat = (Done None, s', tr) /\
    exists (arg0 : string) (specf : File) (pre : Reader) (spec : Spec)
           (opened : list (string * File * result Reader)),
      Args (flags 8 0) = [arg0] /\
      Ev (ParseSpec pre) (Ok spec) ∈ tr /\
      opened.*1.*1 = all_includes spec /\
      include_calls tr
        = Ev (OsOpen arg0) (Ok specf)
          :: includes_run
               (Run.NewRunner (getCommand (flags 8 0) (ldCommand (flags 8 0)) "ld"))
               opened /\
      opened_paths tr = arg0 :: all_includes spec /\
      wrapped_objects tr =
        (fun i => (i +:+ ".o",
                   Run.NewRunner (getCommand (flags 8 0) (ldCommand (flags 8 0)) "ld")))
        <$> all_includes spec.
Proof.
  eexists _, _. split; [reflexivity |].
  refine (mainE_wraps_every_include (sim quiet_world) 4096 (flags 8 0) 0%nat _ _ _).
  reflexivity.
Defined.

(** ** cmd/spicy/main.go: units of a run that fails, and the fill byte *)

Lemma no_parse_in_calls (Q : forall X : Type, Sys X -> bool) (tr : Trace) :
  (forall X (e : Sys X) (x : X), Q X e = true -> parsed_of (Ev e x) = None) ->
  Forall (fun ev => call_is Q ev = true) tr ->
  omap parsed_of tr = [].
Proof.
  intros HQ Htr. eapply omap_none_of_calls; [| exact Htr].
  intros [X e x] Hev. apply HQ, Hev.
Qed.

Section UnitsInOrder.
Context {S : Type} (h : Handler S).
Variable CodeStart : Z.
Import Main.

(** One iteration of the loop over the units, however it ends: the unit is
    started at most once, and written at most once and only when started. *)
Lemma mainE_wave_units (rom : RomFile) (ld as_ objcopy : ExecRunner) (w : Wave)
    (s s' : S) (o : Outcome (option error)) (tr : Trace) :
  exec h (mainE_wave CodeStart rom ld as_ objcopy w) s = (o, s', tr) ->
  (units_started tr = [] \/ units_started tr = [w]) /\
  (length (rom_writes tr) <= length (units_started tr))%nat.
Proof.
  unfold mainE_wave. intros H. rewrite exec_bind in H.
  destruct (mainE_segments_trace h ld (RawSegments w) s) as (Hu & _ & Hw).
  destruct (exec h (mainE_segments ld (RawSegments w)) s) as [[[e | msg] s1] t1].
  2: { injection H as <- <- <-. cbn [snd] in *. rewrite Hu, Hw. auto. }
  cbn [snd] in *.
  assert (Hgen : forall t2, units_started (t1 ++ t2) = units_started t2 /\
                            rom_writes (t1 ++ t2) = rom_writes t2).
  { intros t2. unfold units_started, rom_writes in *.
    rewrite !omap_app, Hu, Hw. split; reflexivity. }
  destruct e as [err |].
  { exec_done H. injection H as <- <- <-. rewrite app_nil_r, Hu, Hw. auto. }
  exec_step H as en s2. destruct en as [entry | err];
    [| exec_done H; injection H as <- <- <-;
       destruct (Hgen [Ev (CreateEntryBinary w as_) (Err err)]) as [-> ->];
       cbn; auto].
  exec_step H as l s3. destruct l as [linked | err];
    [| exec_done H; injection H as <- <- <-;
       match goal with |- context [t1 ++ ?t] => destruct (Hgen t) as [-> ->] end;
       cbn; auto].
  exec_step H as b s4. destruct b as [bin | err];
    [| exec_done H; injection H as <- <- <-;
       match goal with |- context [t1 ++ ?t] => destruct (Hgen t) as [-> ->] end;
       cbn; auto].
  exec_step H as rd s5. destruct rd as [bytes | err];
    [| exec_done H; injection H as <- <- <-;
       match goal with |- context [t1 ++ ?t] => destruct (Hgen t) as [-> ->] end;
       cbn; auto].
  cbv zeta in H. exec_step H as wr s6. exec_done H. injection H as <- <- <-.
  match goal with |- context [t1 ++ ?t] => destruct (Hgen t) as [-> ->] end.
  cbn. auto.
Qed.

Lemma mainE_waves_units (rom : RomFile) (ld as_ objcopy : ExecRunner)
    (waves : list Wave) :
  forall (s s' : S) (o : Outcome (option error)) (tr : Trace),
    exec h (mainE_waves CodeStart rom ld as_ objcopy waves) s = (o, s', tr) ->
    units_started tr `prefix_of` waves /\
    (length (rom_writes tr) <= length (units_started tr))%nat.
Proof.
  induction waves as [| w rest IH]; intros s s' o tr H; cbn [mainE_waves] in H.
  - exec_done H. injection H as <- <- <-. split; [reflexivity | cbn; lia].
  - rewrite exec_bind in H.
    destruct (exec h (mainE_wave CodeStart rom ld as_ objcopy w) s)
      as [[ow s1] t1] eqn:Hw.
    pose proof (mainE_wave_units _ _ _ _ _ _ _ _ _ Hw) as (Hcase & Hcnt).
    assert (Hstop : units_started t1 `prefix_of` w :: rest).
    { destruct Hcase as [-> | ->];
        [apply prefix_nil | apply prefix_cons, prefix_nil]. }
    destruct ow as [[err |] | msg].
    + exec_done H. injection H as <- <- <-. rewrite app_nil_r. auto.
    + destruct (exec h (mainE_waves CodeStart rom ld as_ objcopy rest) s1)
        as [[o2 s2] t2] eqn:Hrest.
      injection H as <- <- <-.
      apply mainE_wave_done in Hw as (b & Hu & _ & Hr).
      apply IH in Hrest as (Hpre & Hcnt2).
      unfold units_started, rom_writes in *.
      rewrite !omap_app, Hu, Hr, !length_app. cbn.
      split; [apply prefix_cons, Hpre | lia].
    + injection H as <- <- <-. auto.
Qed.

(** X21: in every run of [mainE], also one that fails, the build units are
    taken in the order of the parsed spec, none skipped and none twice:
    the units started are an initial part of the units of the spec, and no
    unit is written into the ROM image without having been started. *)
Theorem mainE_takes_units_in_order (fl : Flags) (s s' : S)
    (o : Outcome (option error)) (tr : Trace) (pre : Reader) (spec : Spec) :
  exec h (mainE CodeStart fl) s = (o, s', tr) ->
  Ev (ParseSpec pre) (Ok spec) ∈ tr ->
  units_started tr `prefix_of` Waves spec /\
  (length (rom_writes tr) <= length (units_started tr))%nat.
Proof.
  intros H Hin.
  assert (Hspec : spec ∈ omap parsed_of tr).
  { apply list_elem_of_omap. exists (Ev (ParseSpec pre) (Ok spec)).
    split; [exact Hin | reflexivity]. }
  clear Hin. revert Hspec.
  unfold mainE in H.
  destruct (Args fl) as [| arg0 [| arg1 more]];
    [exec_done H; injection H as <- <- <-; intros Hx; inversion Hx | |
     exec_done H; injection H as <- <- <-; intros Hx; inversion Hx].
  exec_step H as u s0. destruct u.
  exec_step H as op s1. destruct op as [f | err];
    [| exec_done H; injection H as <- <- <-; intros Hx; inversion Hx].
  rewrite exec_bind in H.
  destruct (exec h (mainE_body CodeStart fl f) s1) as [[ob s2] tb] eqn:Hbody.
  assert (Htr : exists cl : Trace,
            tr = [Ev (LogSetLevel (if verbose fl then DebugLevel else WarnLevel)) tt;
                  Ev (OsOpen arg0) (Ok f)] ++ tb ++ cl /\
            Forall (fun ev => call_is is_finalize_call ev = true) cl).
  { destruct ob as [res | msg].
    - exec_step H as c s3. exec_done H. injection H as <- <- <-.
      eexists [_]. split; [reflexivity | repeat constructor].
    - cbn iota beta in H. injection H as <- <- <-.
      exists []. rewrite app_nil_r. split; [reflexivity | constructor]. }
  destruct Htr as (cl & -> & Hcl). clear H.
  destruct (finalize_call_trace _ Hcl) as (Hcu & Hcr & _ & _).
  assert (Hcp : omap parsed_of cl = []).
  { eapply no_parse_in_calls; [| exact Hcl]. intros X e x. destruct e; cbn; congruence. }
  assert (Hbodyspec : spec ∈ omap parsed_of tb ->
            units_started tb `prefix_of` Waves spec /\
            (length (rom_writes tb) <= length (units_started tb))%nat).
  { clear Hcl Hcu Hcr Hcp. unfold mainE_body in Hbody. cbv zeta in Hbody.
    exec_step Hbody as p s4. destruct p as [pr | err];
      [| exec_done Hbody; injection Hbody as <- <- <-; intros Hx; inversion Hx].
    exec_step Hbody as sp s5. destruct sp as [spec' | err];
      [| exec_done Hbody; injection Hbody as <- <- <-; intros Hx; inversion Hx].
    exec_step Hbody as r s6. destruct r as [rom | err].
    2: { exec_done Hbody. injection Hbody as <- <- <-. intros _.
         split; [apply prefix_nil | cbn; lia]. }
    rewrite exec_bind in Hbody.
    pose proof (issues_only_trace h is_wave_call _ s6
                  (mainE_waves_issues CodeStart rom
                     (Run.NewRunner (getCommand fl (ldCommand fl) "ld"))
                     (Run.NewRunner (getCommand fl (asCommand fl) "as"))
                     (Run.NewRunner (getCommand fl (objcopyCommand fl) "objcopy"))
                     (Waves spec'))) as Hcalls.
    destruct (exec h (mainE_waves CodeStart rom
                (Run.NewRunner (getCommand fl (ldCommand fl) "ld"))
                (Run.NewRunner (getCommand fl (asCommand fl) "as"))
                (Run.NewRunner (getCommand fl (objcopyCommand fl) "objcopy"))
                (Waves spec')) s6) as [[ow s8] t8] eqn:Hw.
    cbn [snd] in Hcalls.
    apply mainE_waves_units in Hw as (Hpre & Hcnt).
    assert (Hwp : omap parsed_of t8 = []).
    { eapply no_parse_in_calls; [| exact Hcalls].
      intros X e x. destruct e; cbn; congruence. }
    assert (Hrest : exists tf : Trace,
              tb = [Ev (PreprocessSpec f
                          (Run.NewRunner (getCommand fl (cppCommand fl) "gcc"))
                          (includeFlags fl) (defineFlags fl) (undefineFlags fl)) (Ok pr);
                    Ev (ParseSpec pr) (Ok spec');
                    Ev (NewBlankRomFile (byte_of_int (filldata fl))) (Ok rom)]
                   ++ t8 ++ tf /\
              Forall (fun ev => call_is is_finalize_call ev = true) tf).
    { destruct ow as [[err |] | msg].
      - exec_done Hbody. injection Hbody as <- <- <-.
        exists []. split; [reflexivity | constructor].
      - pose proof (issues_only_trace h is_finalize_call _ s8
                      (mainE_finalize_issues fl rom)) as Hfc.
        destruct (exec h (mainE_finalize fl rom) s8) as [[o9 s9] t9].
        cbn iota beta in Hbody. injection Hbody as <- <- <-.
        exists t9. split; [reflexivity | exact Hfc].
      - cbn iota beta in Hbody. injection Hbody as <- <- <-.
        exists []. rewrite app_nil_r. split; [reflexivity | constructor]. }
    destruct Hrest as (tf & -> & Hfc).
    destruct (finalize_call_trace _ Hfc) as (Hfu & Hfr & _ & _).
    assert (Hfp : omap parsed_of tf = []).
    { eapply no_parse_in_calls; [| exact Hfc].
      intros X e x. destruct e; cbn; congruence. }
    intros Hx. rewrite !omap_app, Hwp, Hfp in Hx. cbn in Hx.
    apply list_elem_of_singleton in Hx. subst spec'.
    unfold units_started, rom_writes in *.
    rewrite !omap_app, Hfu, Hfr. cbn. rewrite !app_nil_r. auto. }
  intros Hx. rewrite !omap_app, Hcp in Hx. cbn in Hx. rewrite app_nil_r in Hx.
  destruct (Hbodyspec Hx) as (Hpre & Hcnt).
  unfold units_started, rom_writes in *.
  rewrite !omap_app, Hcu, Hcr. cbn. rewrite !app_nil_r. auto.
Qed.

(** X19: the conversion of [-f] to a byte keeps a value within 0x0-0xff
    as it is, and every byte is the conversion of its own value. *)
Theorem byte_of_int_in_range :
  (forall z : Z, 0 <= z <= 255 -> Byte.to_N (byte_of_int z) = Z.to_N z) /\
  (forall b : byte, byte_of_int (Z.of_N (Byte.to_N b)) = b).
Proof.
  split.
  - intros z Hz. rewrite byte_of_int_value. rewrite Z.mod_small by lia. reflexivity.
  - intros b. destruct b; vm_compute; reflexivity.
Qed.

End UnitsInOrder.

Import Run Main Sim.

(** An instance: the second unit fails on its include file; the first was
    started and written, the second was not started. *)
Lemma mainE_takes_units_in_order_witness :
  exists (o : Outcome (option error)) (s' : nat) (tr : Trace),
    (exec (sim missing_include_later) (mainE 4096 (flags 8 0)) 0%nat = (o, s', tr) /\
     Ev (ParseSpec (FileReader (mkFile 0 "spec"))) (Ok (mkSpec [wave2; wave1])) ∈ tr) /\
    units_started tr `prefix_of` Waves (mkSpec [wave2; wave1]) /\
    (length (rom_writes tr) <= length (units_started tr))%nat.
Proof.
  assert (Hrun : exec (sim missing_include_later) (mainE 4096 (flags 8 0)) 0%nat
            = (Done (Some (ErrorString
                 "could not open include: open a.bin: no such file or directory")),
               _, _)) by reflexivity.
  eexists _, _, _. split.
  - split; [exact Hrun |].
    repeat first [apply list_elem_of_here | apply list_elem_of_further].
  - refine (mainE_takes_units_in_order (sim missing_include_later) 4096 (flags 8 0)
              0%nat _ _ _ (FileReader (mkFile 0 "spec")) (mkSpec [wave2; wave1])
              Hrun _).
    repeat first [apply list_elem_of_here | apply list_elem_of_further].
Defined.

(** An instance: [-f 200]. *)
Lemma byte_of_int_in_range_witness :
  0 <= 200 <= 255 /\ Byte.to_N (byte_of_int 200) = Z.to_N 200.
Proof.
  assert (Hz : 0 <= 200 <= 255) by (split; discriminate).
  split; [exact Hz |].
  exact (proj1 byte_of_int_in_range 200 Hz).
Defined.
